(** * Flow-rate analysis of the pedestrian simulation: a shallow embedding

    This development embeds the analytic core of
    [src/visualization/flow_rate.py] -- the event-log parser, the
    stationary-window flow estimator, the per-configuration summary and the
    exit-time aligner -- and states its properties.

    Conventions of the embedding.
    - A Python [float] is an exact rational ([Q]); the value [nan] that
      [np.mean] returns on an empty array is [None] in [float := option Q].
      Binary64 rounding is not part of the model.
    - A Python [int] is a [Z]; numpy's [int64] arrays hold exit counts, which
      are bounded by the population size, so no wrap-around is modelled.
    - A raised exception is the [Raise] branch of [result]; the code installs
      a single handler ([except KeyError] in [exit_rate_comp]), which is
      modelled where it stands.
    - Subprocess calls and plotting are left out; the text that the simulator
      writes is an input of the model.
    - The builtins [float] and [int] and the solver [np.polyfit] are
      interfaces of the model; [np.mean] and [np.std] are the formulas of
      their documentation. *)

From Stdlib Require Import ZArith QArith List Bool Ascii String Lia Sorted.
From Stdlib Require Import Reals Qreals Lqa DecimalString.
From Equations Require Import Equations.
Import ListNotations.

Open Scope Z_scope.

(** ** Exceptions and the error monad *)

Inductive exn : Type :=
| IndexError
| ValueError
| KeyError.

Inductive result (A : Type) : Type :=
| Ok (a : A)
| Raise (e : exn).

Arguments Ok {A} a.
Arguments Raise {A} e.

Definition bind {A B : Type} (m : result A) (k : A -> result B) : result B :=
  match m with
  | Ok a => k a
  | Raise e => Raise e
  end.

Notation "x <- m ;; k" := (bind m (fun x => k))
  (at level 61, m at next level, right associativity).
Notation "' p <- m ;; k" := (bind m (fun x => match x with p => k end))
  (at level 61, p pattern, m at next level, right associativity).

(** A [for] loop whose body may raise: the state is threaded through the
    iterations and the first exception ends the loop. *)
Fixpoint for_each {S X : Type} (body : S -> X -> result S) (xs : list X) (s : S)
  : result S :=
  match xs with
  | [] => Ok s
  | x :: xs' => s' <- body s x ;; for_each body xs' s'
  end.

Definition of_option {A : Type} (e : exn) (o : option A) : result A :=
  match o with
  | Some a => Ok a
  | None => Raise e
  end.

(** ** Python and numpy primitives used by the script *)

(** [l[i]]: a negative index counts from the end; out of range raises. *)
Definition py_index {A : Type} (l : list A) (i : Z) : result A :=
  let n := Z.of_nat (List.length l) in
  let i' := if i <? 0 then i + n else i in
  if (i' <? 0) || (n <=? i') then Raise IndexError
  else of_option IndexError (nth_error l (Z.to_nat i')).

(** [l[start:stop]]: both bounds are clamped to the sequence. *)
Definition clamp (n i : Z) : Z :=
  if i <? 0 then Z.max (i + n) 0 else Z.min i n.

Definition py_slice {A : Type} (l : list A) (start stop : Z) : list A :=
  let n := Z.of_nat (List.length l) in
  let a := clamp n start in
  let b := clamp n stop in
  firstn (Z.to_nat (b - a)) (skipn (Z.to_nat a) l).

(** [range(start, stop, step)]: a zero step raises [ValueError]. *)
Definition range_length (start stop step : Z) : Z :=
  if 0 <? step then
    if start <? stop then (stop - start - 1) / step + 1 else 0
  else
    if stop <? start then (start - stop - 1) / (- step) + 1 else 0.

Definition py_range (start stop step : Z) : result (list Z) :=
  if step =? 0 then Raise ValueError
  else Ok (map (fun i => start + Z.of_nat i * step)
               (seq 0 (Z.to_nat (range_length start stop step)))).

(** [str.isspace] on the code points 0..255. *)
Definition isspace (c : ascii) : bool :=
  let n := nat_of_ascii c in
  ((9 <=? n) && (n <=? 13) || (28 <=? n) && (n <=? 32)
   || (n =? 133) || (n =? 160))%nat.

Definition flush (tok : list ascii) : list string :=
  match tok with
  | [] => []
  | _ => [string_of_list_ascii (rev tok)]
  end.

(** [str.split()] without arguments: the maximal runs of non-blank
    characters, in order. [tok] is the run being read, in reverse. *)
Fixpoint str_split_from (tok : list ascii) (s : string) : list string :=
  match s with
  | EmptyString => flush tok
  | String c s' =>
      if isspace c then flush tok ++ str_split_from [] s'
      else str_split_from (c :: tok) s'
  end.

Definition str_split (s : string) : list string := str_split_from [] s.

(** [float(s)] and [int(s)] are builtins of the interpreter: the model takes
    them as an interface. [None] stands for the [ValueError] they raise. *)
Class Conversions : Type := {
  float_of_str : string -> option Q;
  int_of_str : string -> option Z
}.

(** [int(x)] on a float truncates towards zero. *)
Definition int_of_float (x : Q) : Z := Z.quot (Qnum x) (Z.pos (Qden x)).

(** [np.where(mask)[0]]: the indices at which the mask holds, increasing. *)
Fixpoint where_from (i : Z) (mask : list bool) : list Z :=
  match mask with
  | [] => []
  | b :: mask' =>
      if b then i :: where_from (i + 1) mask' else where_from (i + 1) mask'
  end.

Definition np_where (mask : list bool) : list Z := where_from 0 mask.

(** A float or [nan]. *)
Definition float : Type := option Q.

Definition np_sum (l : list Q) : Q := fold_left Qplus l 0%Q.

Definition count (l : list Q) : Q := inject_Z (Z.of_nat (List.length l)).

(** [np.mean] of finite values: the sum over the number of elements; the
    empty array gives [nan]. *)
Definition np_mean (l : list Q) : float :=
  match l with
  | [] => None
  | _ => Some (np_sum l / count l)%Q
  end.

(** [np.var] with the default [ddof = 0]: the mean of the squared
    deviations from the mean. *)
Definition np_var (l : list Q) : float :=
  match np_mean l with
  | None => None
  | Some m => np_mean (map (fun x => (x - m) * (x - m))%Q l)
  end.

(** [np.std]: the square root of [np.var]; a real number. *)
Definition np_std (l : list Q) : option R :=
  match np_var l with
  | None => None
  | Some v => Some (sqrt (Q2R v))
  end.

(** An array that holds a [nan] has mean and deviation [nan]. *)
Fixpoint finite_values (l : list float) : option (list Q) :=
  match l with
  | [] => Some []
  | None :: _ => None
  | Some x :: l' =>
      match finite_values l' with
      | Some xs => Some (x :: xs)
      | None => None
      end
  end.

Definition np_mean_nan (l : list float) : float :=
  match finite_values l with
  | Some xs => np_mean xs
  | None => None
  end.

Definition np_std_nan (l : list float) : option R :=
  match finite_values l with
  | Some xs => np_std xs
  | None => None
  end.

(** ** The event-log parser ([run_simulations], the loop over [lines]) *)

Section Parser.
Context {conv : Conversions}.

(** One iteration: [data = line.split()], [float(data[0])],
    [int(data[1])], in this order. *)
Definition parse_line (line : string) : result (Q * Z) :=
  let data := str_split line in
  d0 <- py_index data 0 ;;
  time <- of_option ValueError (float_of_str d0) ;;
  d1 <- py_index data 1 ;;
  cumulative_exits <- of_option ValueError (int_of_str d1) ;;
  Ok (time, cumulative_exits).

(** The state of the loop is the pair of lists being appended to. *)
Definition parse_step (st : list Q * list Z) (line : string)
  : result (list Q * list Z) :=
  '(time, cumulative_exits) <- parse_line line ;;
  Ok (fst st ++ [time], snd st ++ [cumulative_exits]).

Definition parse_log (lines : list string) : result (list Q * list Z) :=
  for_each parse_step lines ([], []).
End Parser.

(** ** The stationary-window flow estimator ([run_simulations]) *)

Definition dt : Q := 0.025.
Definition time_window_steps : Z := int_of_float (10 / dt).
Definition time_steps : Z := int_of_float (1 / dt).

(** The two searches for the stationary period. Their values are not used
    afterwards, their exceptions are. *)
Definition lower_bound (times : list Q) : result Z :=
  py_index (np_where (map (fun t => Qle_bool 10 t) times)) 0.

Definition upper_bound (times : list Q) : result Z :=
  py_index (np_where (map (fun t => Qle_bool t 45) times)) (-1).

(** One window: the state is the pair of the locals [flow_rates], [times]. *)
Definition window_step (stationary_exits : list Z) (st : list Q * list Q)
  (k : Z) : result (list Q * list Q) :=
  let exits := py_slice stationary_exits k (k + time_window_steps) in
  e_last <- py_index exits (-1) ;;
  e_first <- py_index exits 0 ;;
  let flow_rate :=
    (inject_Z (e_last - e_first) / (inject_Z time_window_steps * dt))%Q in
  Ok (fst st ++ [flow_rate], snd st ++ [(inject_Z k * dt)%Q]).

Definition flow_rate_over_time (times : list Q) (exits : list Z)
  : result (list Q * list Q) :=
  _ <- lower_bound times ;;
  _ <- upper_bound times ;;
  let stationary_times := times in
  let stationary_exits := exits in
  ks <- py_range 0
          (Z.of_nat (List.length stationary_times) - time_window_steps + 1)
          time_steps ;;
  for_each (window_step stationary_exits) ks ([], []).

(** What the script keeps of a trial ([simulations[d][j]]), with the two
    series of the windows, which it plots for the first trial. *)
Record trial : Type := {
  times : list Q;
  exits : list Z;
  window_flow_rates : list Q;
  window_times : list Q;
  flow_rate : float
}.

Definition estimate (times : list Q) (exits : list Z) : result trial :=
  '(flow_rates, wtimes) <- flow_rate_over_time times exits ;;
  Ok {| times := times; exits := exits;
        window_flow_rates := flow_rates; window_times := wtimes;
        flow_rate := np_mean flow_rates |}.

Definition run_trial {conv : Conversions} (lines : list string) : result trial :=
  '(times, exits) <- parse_log lines ;;
  estimate times exits.

(** ** The configuration summary (the body of [run_simulations] for one exit width) *)

(** [simulations[d][j]]: the trials are stored under the keys 0, 1, ... *)
Definition trial_at (trials : list trial) (j : Z) : result trial :=
  if j <? 0 then Raise KeyError
  else of_option KeyError (nth_error trials (Z.to_nat j)).

Record configuration : Type := {
  trials : list trial;
  summary : float * option R
}.

Definition run_configuration {conv : Conversions} (rounds : Z)
  (log : Z -> list string) : result configuration :=
  js <- py_range 0 rounds 1 ;;
  trials <- for_each (fun acc j => t <- run_trial (log j) ;; Ok (acc ++ [t]))
              js [] ;;
  flow_rates <- for_each (fun acc j => t <- trial_at trials j ;;
                                        Ok (acc ++ [flow_rate t]))
                  js [] ;;
  Ok {| trials := trials;
        summary := (np_mean_nan flow_rates, np_std_nan flow_rates) |}.

(** ** The exit-time aligner (the body of [exit_rate_comp] for one exit width) *)

(** [average_times]: a dictionary from exit counts to lists of times, in
    insertion order. *)
Definition table : Type := list (Z * list Q).

Fixpoint table_get (d : table) (k : Z) : result (list Q) :=
  match d with
  | [] => Raise KeyError
  | (k', v) :: d' => if k' =? k then Ok v else table_get d' k
  end.

(** [d[k].append(x)] on a key that is present. *)
Fixpoint table_append (d : table) (k : Z) (x : Q) : table :=
  match d with
  | [] => []
  | (k', v) :: d' =>
      if k' =? k then (k', v ++ [x]) :: d' else (k', v) :: table_append d' k x
  end.

(** [d[k] = [x]] on a key that is absent. *)
Definition table_set_new (d : table) (k : Z) (x : Q) : table := d ++ [(k, [x])].

Definition checkpoints (max_exits : Z) : result (list Z) :=
  let exits_step := max_exits / 20 in
  py_range 0 (max_exits + 1) exits_step.

(** The body of the loop over [exit_count], with its [try]. *)
Definition checkpoint_step (times : list Q) (exits : list Z)
  (average_times : table) (exit_count : Z) : result table :=
  index <- py_index (np_where (map (fun e => exit_count <=? e) exits)) 0 ;;
  match table_get average_times exit_count with
  | Ok _ =>
      t <- py_index times index ;;
      Ok (table_append average_times exit_count t)
  | Raise KeyError =>
      t <- py_index times index ;;
      Ok (table_set_new average_times exit_count t)
  | Raise e => Raise e
  end.

(** The body of the loop over [j]. *)
Definition trial_step (trials : list trial) (max_exits : Z)
  (average_times : table) (j : Z) : result table :=
  t <- trial_at trials j ;;
  cps <- checkpoints max_exits ;;
  for_each (checkpoint_step (times t) (exits t)) cps average_times.

Record alignment : Type := {
  aligned_exits : list Z;
  aligned_times : list float;
  aligned_errors : list (option R)
}.

Definition align_configuration (rounds : Z) (trials : list trial) (max_exits : Z)
  : result alignment :=
  js <- py_range 0 rounds 1 ;;
  average_times <- for_each (trial_step trials max_exits) js [] ;;
  Ok {| aligned_exits := map fst average_times;
        aligned_times := map (fun kv => np_mean (snd kv)) average_times;
        aligned_errors := map (fun kv => np_std (snd kv)) average_times |}.

(** ** The sweep over the exit widths ([run_simulations], [exit_rate_comp])

    [simulations] holds the round count and, under each exit width, its
    configuration. A width that occurs twice keeps its first place and its
    last value. *)

Definition sweep : Type := list (Q * configuration).

Fixpoint sweep_set (s : sweep) (d : Q) (c : configuration) : sweep :=
  match s with
  | [] => [(d, c)]
  | (d', c') :: s' =>
      if Qeq_bool d' d then (d', c) :: s' else (d', c') :: sweep_set s' d c
  end.

Fixpoint sweep_get (s : sweep) (d : Q) : option configuration :=
  match s with
  | [] => None
  | (d', c) :: s' => if Qeq_bool d' d then Some c else sweep_get s' d
  end.

Record simulations : Type := {
  sim_rounds : Z;
  by_width : sweep
}.

Definition enumerate {X : Type} (l : list X) : list (Z * X) :=
  combine (map Z.of_nat (seq 0 (List.length l))) l.

(** [log i j] is the text that the simulator leaves for the trial [j] of the
    width of index [i]. *)
Definition run_simulations {conv : Conversions} (exit_width : list Q)
  (pedestrians : list Z) (rounds : Z) (log : Z -> Z -> list string)
  : result simulations :=
  widths <- for_each
              (fun s id =>
                 _ <- py_index pedestrians (fst id) ;;
                 cfg <- run_configuration rounds (log (fst id)) ;;
                 Ok (sweep_set s (snd id) cfg))
              (enumerate exit_width) [] ;;
  Ok {| sim_rounds := rounds; by_width := widths |}.

(** [simulations[d][j]] is looked up inside the loop over [j]: a width
    that is absent raises [KeyError] at the first round, as a width without
    trials does. *)
Definition trials_of (sims : simulations) (d : Q) : list trial :=
  match sweep_get (by_width sims) d with
  | Some cfg => trials cfg
  | None => []
  end.

Definition exit_rate_comp (sims : simulations) (exit_widths : list Q)
  (pedestrians : list Z) : result (list alignment) :=
  for_each
    (fun plots id =>
       max_exits <- py_index pedestrians (fst id) ;;
       al <- align_configuration (sim_rounds sims) (trials_of sims (snd id))
               max_exits ;;
       Ok (plots ++ [al]))
    (enumerate exit_widths) [].

(** ** The trend fitter ([main])

    [np.polyfit(x, y, deg)] returns the coefficients of the fitted
    polynomial, the highest power first. *)

Class Fitting : Type := {
  polyfit : list Q -> list Q -> Z -> list Q
}.

Definition trend_fit {fit : Fitting} (exit_widths flow_rates : list Q)
  : result (Q * Q * list Q) :=
  let coefficients := polyfit exit_widths flow_rates 1 in
  slope <- py_index coefficients 0 ;;
  intercept <- py_index coefficients 1 ;;
  let curve := map (fun x => slope * x + intercept)%Q exit_widths in
  Ok (slope, intercept, curve).

(** ** Plain decimal literals: an instance of the conversions

    The simulator writes a time with a decimal point and a count as a
    decimal integer. On such tokens (an optional sign, digits, at most one
    point) [float] and [int] behave as follows; every other token is refused
    by this instance. It serves to run the model on concrete text. *)

Definition unsigned_part (s : string) : bool * string :=
  match s with
  | String "-" s' => (true, s')
  | String "+" s' => (false, s')
  | _ => (false, s)
  end.

Definition digits_value (s : string) : option Z :=
  option_map Z.of_uint (NilEmpty.uint_of_string s).

Definition decimal_int (s : string) : option Z :=
  let '(neg, body) := unsigned_part s in
  match body with
  | EmptyString => None
  | _ => option_map (fun v => if neg then - v else v) (digits_value body)
  end.

(** The text before the first point and the text after it, if any. *)
Fixpoint cut_at_point (s : string) : string * option string :=
  match s with
  | EmptyString => (EmptyString, None)
  | String c s' =>
      if Ascii.eqb c "." then (EmptyString, Some s')
      else let '(a, b) := cut_at_point s' in (String c a, b)
  end.

Definition decimal_float (s : string) : option Q :=
  let '(neg, body) := unsigned_part s in
  let '(whole, frac) := cut_at_point body in
  let frac := match frac with Some f => f | None => EmptyString end in
  match (whole ++ frac)%string with
  | EmptyString => None
  | ds =>
      option_map
        (fun v =>
           let q := Qmake v (Z.to_pos (10 ^ Z.of_nat (String.length frac))) in
           if neg then Qopp q else q)
        (digits_value ds)
  end.

Definition decimal : Conversions :=
  {| float_of_str := decimal_float; int_of_str := decimal_int |}.

(** ** The estimator as the specification words it

    A window of [window_length] samples slides in steps of [step_length]
    samples from index 0 while [start + window_length <= len(times)]; each
    window yields the pair of its start time and of the difference of the
    exit counts at its last and first sample over
    [window_length * sample_interval]. *)

Definition sample_interval : Q := 0.025.
Definition window_length : nat := 400.
Definition step_length : nat := 40.

Equations? reference_windows (len : nat) (exits : list Z) (start : nat)
  : list (Q * Q) by wf (len - start)%nat lt :=
  reference_windows len exits start with le_dec (start + window_length) len := {
    | left _ =>
        let window_start := nth start exits 0 in
        let window_end := nth (start + window_length - 1) exits 0 in
        ((inject_Z (Z.of_nat start) * sample_interval)%Q,
         (inject_Z (window_end - window_start)
          / (inject_Z (Z.of_nat window_length) * sample_interval))%Q)
        :: reference_windows len exits (start + step_length)
    | right _ => [] }.
Proof. unfold window_length, step_length in *. lia. Qed.



(** A line as the specification requires it: exactly two tokens, a real
    and an integer. *)
Definition exactly_two_fields {conv : Conversions} (line : string) : bool :=
  match str_split line with
  | [d0; d1] =>
      match float_of_str d0, int_of_str d1 with
      | Some _, Some _ => true
      | _, _ => false
      end
  | _ => false
  end.

(** A line as the parser requires it: two leading tokens, a real and an
    integer, whatever follows. *)
Definition two_leading_fields {conv : Conversions} (line : string) : bool :=
  match str_split line with
  | d0 :: d1 :: _ =>
      match float_of_str d0, int_of_str d1 with
      | Some _, Some _ => true
      | _, _ => false
      end
  | _ => false
  end.

(** ** Least squares, as the documentation of [np.polyfit] words it

    The fit of degree 1 returns two coefficients [a], [b] that minimise the
    sum of the squared residuals [a * x + b - y] over the points. *)

Definition squared_error (xs ys : list Q) (a b : Q) : Q :=
  np_sum (map (fun xy => (a * fst xy + b - snd xy) * (a * fst xy + b - snd xy))%Q
              (combine xs ys)).

Definition least_squares_line (xs ys coefficients : list Q) : Prop :=
  exists a b,
    coefficients = [a; b] /\
    forall a' b', (squared_error xs ys a b <= squared_error xs ys a' b')%Q.

(** The solution of the normal equations, an instance of the solver on
    points with two distinct abscissas. *)
Definition normal_equations (xs ys : list Q) (deg : Z) : list Q :=
  let n := count xs in
  let sx := np_sum xs in
  let sy := np_sum ys in
  let sxx := np_sum (map (fun x => x * x)%Q xs) in
  let sxy := np_sum (map (fun xy => fst xy * snd xy)%Q (combine xs ys)) in
  let slope := ((n * sxy - sx * sy) / (n * sxx - sx * sx))%Q in
  let intercept := ((sy - slope * sx) / n)%Q in
  [slope; intercept].

Definition exact_fit : Fitting := {| polyfit := normal_equations |}.

(** ** The time at which a trial reaches a checkpoint

    The first index whose exit count is at least the checkpoint, and the
    time at this index. *)

Fixpoint first_reach (exits : list Z) (c : Z) : nat :=
  match exits with
  | [] => 0
  | e :: exits' => if c <=? e then 0 else S (first_reach exits' c)
  end.

Definition time_reached (t : trial) (c : Z) : Q :=
  nth (first_reach (exits t) c) (times t) 0%Q.

(** The largest multiple of the step that does not exceed the population. *)
Definition last_checkpoint (max_exits : Z) : Z :=
  max_exits / (max_exits / 20) * (max_exits / 20).

(** The table that holds, for each key, the row [f key]. *)
Definition table_of (keys : list Z) (f : Z -> list Q) : table :=
  map (fun c => (c, f c)) keys.

(** ** Concrete logs *)

(** The constant-rate log: entry [i] is at time [i * dt] and counts [i]
    exits. *)
Definition uniform_times (n : nat) : list Q :=
  map (fun i => (inject_Z (Z.of_nat i) * dt)%Q) (seq 0 n).

Definition uniform_exits (n : nat) : list Z := map Z.of_nat (seq 0 n).

(** A log of 400 entries that jumps over the stationary period. *)
Definition gap_times : list Q := 0%Q :: repeat 50%Q 399.
Definition gap_exits : list Z := uniform_exits 400.

(** The text of a log whose entry [i] reads "i i". *)
Definition show (i : nat) : string := NilZero.string_of_uint (Nat.to_uint i).

Definition diagonal_text (n : nat) : list string :=
  map (fun i => (show i ++ " " ++ show i)%string) (seq 0 n).

(** Three short trials for a population of 20; a log too short for a
    window has no sample and the flow rate [nan]. *)
Definition short_trial (ts : list Q) (es : list Z) : trial :=
  {| times := ts; exits := es;
     window_flow_rates := []; window_times := []; flow_rate := None |}.

Definition three_trials : list trial :=
  [ short_trial [0; 10; 20; 30]%Q [0; 7; 15; 20];
    short_trial [0; 12; 24; 36]%Q [1; 10; 19; 20];
    short_trial [0; 10; 45; 45]%Q [0; 0; 20; 20] ].

(** The trial that the text of 441 lines gives, and its log. *)
Definition diagonal_log (j : Z) : list string := diagonal_text 441.

Definition diagonal_trial : trial :=
  match run_trial (conv := decimal) (diagonal_text 441) with
  | Ok t => t
  | Raise _ => short_trial [] []
  end.

(** ** [main], up to the regression

    The sweep with the default of three rounds, the aligner, and the two
    series of the plot of the flow rate against the exit width. *)

Definition collect_rates (sims : simulations) (exit_widths : list Q)
  : result (list float * list (option R)) :=
  for_each
    (fun acc d =>
       cfg <- of_option KeyError (sweep_get (by_width sims) d) ;;
       Ok (fst acc ++ [fst (summary cfg)], snd acc ++ [snd (summary cfg)]))
    exit_widths ([], []).

Definition main_flow_rates {conv : Conversions} (exit_widths : list Q)
  (pedestrians : list Z) (log : Z -> Z -> list string)
  : result (list alignment * list float * list (option R)) :=
  sims <- run_simulations exit_widths pedestrians 3 log ;;
  plots <- exit_rate_comp sims exit_widths pedestrians ;;
  series <- collect_rates sims exit_widths ;;
  Ok (plots, fst series, snd series).

(** The text of a log of [n] lines whose line [i] reads "i c". *)
Definition flat_text (n : nat) (c : nat) : list string :=
  map (fun i => (show i ++ " " ++ show c)%string) (seq 0 n).

(** Times of 441 entries that jump from 0 to 50 seconds. *)
Definition jump_times : list Q := 0%Q :: 50%Q :: repeat 50%Q 439.


(** The trial that a text of 46 lines gives: too short for a window. *)
Definition flat_trial : trial :=
  match run_trial (conv := decimal) (flat_text 46 0) with
  | Ok t => t
  | Raise _ => short_trial [] []
  end.

Definition mixed_log (j : Z) : list string :=
  if j =? 0 then diagonal_text 441 else flat_text 46 0.

(** A fourth trial that stops at 19 exits. *)
Definition four_trials : list trial :=
  three_trials ++ [short_trial [0; 10; 20]%Q [0; 5; 19]].

(** The logs of a sweep whose first width gets the long text and whose
    other widths get the short one. *)
Definition twice_log (i j : Z) : list string :=
  if i =? 0 then diagonal_text 441 else flat_text 46 0.

(** * Properties *)

(** ** Indexing, ranges and loops *)

Lemma py_index_nat {A : Type} (l : list A) (i : nat) :
  py_index l (Z.of_nat i) = of_option IndexError (nth_error l i).
Proof.
  unfold py_index.
  assert (H : (Z.of_nat i <? 0) = false) by (apply Z.ltb_ge; lia).
  rewrite H, H. cbn [orb].
  destruct (Z.leb_spec (Z.of_nat (List.length l)) (Z.of_nat i)) as [Hle | Hlt].
  - assert (Hnone : nth_error l i = None) by (apply nth_error_None; lia).
    rewrite Hnone. reflexivity.
  - rewrite Nat2Z.id. reflexivity.
Qed.

Lemma py_index_head {A : Type} (x : A) (l : list A) :
  py_index (x :: l) 0 = Ok x.
Proof. exact (py_index_nat (x :: l) 0). Qed.

Lemma py_index_in_range {A : Type} (l : list A) (i : nat) (d : A) :
  (i < List.length l)%nat -> py_index l (Z.of_nat i) = Ok (nth i l d).
Proof.
  intros Hi. rewrite py_index_nat.
  rewrite (nth_error_nth' l d Hi). reflexivity.
Qed.

Lemma py_index_last {A : Type} (l : list A) (d : A) :
  l <> [] -> py_index l (-1) = Ok (nth (List.length l - 1) l d).
Proof.
  intros Hl. unfold py_index.
  assert (Hlen : (0 < List.length l)%nat).
  { destruct l; [contradiction | simpl; lia]. }
  change (-1 <? 0) with true. cbv iota.
  assert (H1 : (-1 + Z.of_nat (List.length l) <? 0) = false)
    by (apply Z.ltb_ge; lia).
  assert (H2 : (Z.of_nat (List.length l) <=? -1 + Z.of_nat (List.length l)) = false)
    by (apply Z.leb_gt; lia).
  rewrite H1, H2. cbn [orb].
  replace (Z.to_nat (-1 + Z.of_nat (List.length l))) with (List.length l - 1)%nat
    by lia.
  rewrite (nth_error_nth' l d); [reflexivity | lia].
Qed.

Lemma py_index_nil {A : Type} (i : Z) : py_index (@nil A) i = Raise IndexError.
Proof.
  unfold py_index. cbn [List.length Z.of_nat].
  destruct (i <? 0) eqn:Hi.
  - assert (H : (i + 0 <? 0) = true) by (apply Z.ltb_lt; apply Z.ltb_lt in Hi; lia).
    rewrite H. reflexivity.
  - rewrite Hi. cbn [orb].
    assert (H : (0 <=? i) = true) by (apply Z.leb_le; apply Z.ltb_ge in Hi; lia).
    rewrite H. reflexivity.
Qed.

(** ** The parser *)

Section ParserFacts.
Context {conv : Conversions}.

Lemma parse_line_ok (line : string) (time : Q) (cumulative_exits : Z) :
  parse_line line = Ok (time, cumulative_exits) <->
  exists d0 d1 rest,
    str_split line = d0 :: d1 :: rest /\
    float_of_str d0 = Some time /\ int_of_str d1 = Some cumulative_exits.
Proof.
  unfold parse_line.
  change 0 with (Z.of_nat 0). change 1 with (Z.of_nat 1).
  rewrite !py_index_nat.
  destruct (str_split line) as [| d0 [| d1 rest]]; cbn.
  - split; [discriminate | intros (? & ? & ? & H & _); discriminate].
  - split.
    + destruct (float_of_str d0); cbn; discriminate.
    + intros (? & ? & ? & H & _); discriminate.
  - split.
    + destruct (float_of_str d0) as [t |] eqn:Ht; cbn; [| discriminate].
      destruct (int_of_str d1) as [e |] eqn:He; cbn; [| discriminate].
      intros [= <- <-]. exists d0, d1, rest. auto.
    + intros (a & b & r & [= <- <- <-] & Ht & He).
      rewrite Ht. cbn. rewrite He. reflexivity.
Qed.

Lemma parse_line_raises (line : string) (e : exn) :
  parse_line line = Raise e -> e = IndexError \/ e = ValueError.
Proof.
  unfold parse_line.
  change 0 with (Z.of_nat 0). change 1 with (Z.of_nat 1).
  rewrite !py_index_nat.
  destruct (str_split line) as [| d0 [| d1 rest]]; cbn.
  - intros [= <-]. auto.
  - destruct (float_of_str d0); cbn; intros [= <-]; auto.
  - destruct (float_of_str d0); cbn; [| intros [= <-]; auto].
    destruct (int_of_str d1); cbn; [discriminate | intros [= <-]; auto].
Qed.

Lemma two_leading_fields_true (line : string) :
  two_leading_fields line = true <-> exists row, parse_line line = Ok row.
Proof.
  unfold two_leading_fields. split.
  - destruct (str_split line) as [| d0 [| d1 rest]] eqn:Hs; try discriminate.
    destruct (float_of_str d0) as [t |] eqn:Ht; [| discriminate].
    destruct (int_of_str d1) as [e |] eqn:He; [| discriminate].
    intros _. exists (t, e). apply parse_line_ok. exists d0, d1, rest. auto.
  - intros [[t e] H]. apply parse_line_ok in H.
    destruct H as (d0 & d1 & rest & -> & -> & ->). reflexivity.
Qed.

Lemma two_leading_fields_false (line : string) :
  two_leading_fields line = false <-> exists e, parse_line line = Raise e.
Proof.
  split.
  - intros Hf. destruct (parse_line line) as [row | e] eqn:Hp.
    + assert (Ht : two_leading_fields line = true)
        by (apply two_leading_fields_true; eauto).
      congruence.
    + eauto.
  - intros [e He]. destruct (two_leading_fields line) eqn:Hf; [| reflexivity].
    apply two_leading_fields_true in Hf. destruct Hf as [row Hrow]. congruence.
Qed.

Lemma parse_steps_ok (lines : list string) (rows : list (Q * Z))
  (st : list Q * list Z) :
  Forall2 (fun line row => parse_line line = Ok row) lines rows ->
  for_each parse_step lines st
  = Ok (fst st ++ map fst rows, snd st ++ map snd rows).
Proof.
  intros H. revert st.
  induction H as [| line [t e] lines rows Hrow _ IH]; intros [ts es]; cbn.
  - rewrite !app_nil_r. reflexivity.
  - unfold parse_step at 1. rewrite Hrow. cbn.
    rewrite IH. cbn. rewrite <- !app_assoc. reflexivity.
Qed.

End ParserFacts.

(** C6, as amended. The parser fails exactly when some line lacks two
    leading tokens of which the first converts to a real and the second to
    an integer; the failure is an [IndexError] (too few tokens) or a
    [ValueError] (a token that does not convert). Tokens after the second
    play no part. *)
Theorem parser_fails_iff_bad_leading_fields (conv : Conversions)
  (lines : list string) :
  (exists e, parse_log lines = Raise e /\ (e = IndexError \/ e = ValueError)) <->
  (exists line, In line lines /\ two_leading_fields line = false).
Proof.
  unfold parse_log. generalize (@nil Q, @nil Z).
  induction lines as [| line lines IH]; intros st; cbn.
  - split; [intros (e & H & _); discriminate | intros (l & [] & _)].
  - unfold parse_step at 1.
    destruct (parse_line line) as [[t e] | e] eqn:Hp; cbn.
    + rewrite IH. split.
      * intros (l & Hin & Hf). exists l. auto.
      * intros (l & [<- | Hin] & Hf).
        -- apply two_leading_fields_false in Hf. destruct Hf as [e' He'].
           congruence.
        -- exists l. auto.
    + split.
      * intros _. exists line. split; [auto |].
        apply two_leading_fields_false. eauto.
      * intros _. exists e. split; [reflexivity |].
        apply (parse_line_raises line). exact Hp.
Qed.

(** C6, as stated, fails: the line "0.5 3 7" has three tokens, hence not
    exactly two, and the parser accepts it. *)
Lemma three_tokens_are_accepted :
  ~ ((exists e, parse_log (conv := decimal) ["0.5 3 7"%string] = Raise e) <->
     (exists line, In line ["0.5 3 7"%string] /\
                   exactly_two_fields (conv := decimal) line = false)).
Proof.
  intros [_ H].
  destruct H as [e He].
  - exists "0.5 3 7"%string. split; [left; reflexivity | reflexivity].
  - vm_compute in He. discriminate.
Qed.

(** C10. A log whose every line starts with two tokens, the first
    convertible to a real and the second to an integer, is accepted; the
    parsed series are these values in the order of the lines, whatever their
    sign and order and whatever follows the second token; and the estimator
    runs on exactly these series. *)
Theorem parser_keeps_leading_fields (conv : Conversions)
  (lines : list string) (rows : list (Q * Z)) :
  Forall2 (fun line row =>
             exists d0 d1 rest,
               str_split line = d0 :: d1 :: rest /\
               float_of_str d0 = Some (fst row) /\
               int_of_str d1 = Some (snd row)) lines rows ->
  parse_log lines = Ok (map fst rows, map snd rows) /\
  run_trial lines = estimate (map fst rows) (map snd rows).
Proof.
  intros H.
  assert (Hp : parse_log lines = Ok (map fst rows, map snd rows)).
  { unfold parse_log.
    rewrite (parse_steps_ok lines rows); [reflexivity |].
    induction H as [| line [t e] lines rows Hrow _ IH]; constructor; [| exact IH].
    apply parse_line_ok. exact Hrow. }
  split; [exact Hp |].
  unfold run_trial. rewrite Hp. reflexivity.
Qed.

(** A run of C10 on two lines with a surplus token, a negative time and
    decreasing values. *)
Lemma parser_keeps_leading_fields_witness :
  parse_log (conv := decimal) ["5.0 3 junk"; "-1.5 -2"]%string
  = Ok ([5.0; -1.5]%Q, [3; -2]) /\
  run_trial (conv := decimal) ["5.0 3 junk"; "-1.5 -2"]%string
  = estimate [5.0; -1.5]%Q [3; -2].
Proof.
  apply (parser_keeps_leading_fields decimal
           ["5.0 3 junk"; "-1.5 -2"]%string [(5.0%Q, 3); ((-1.5)%Q, -2)]).
  repeat constructor.
  - exists "5.0"%string, "3"%string, ["junk"%string]. repeat split; reflexivity.
  - exists "-1.5"%string, "-2"%string, []. repeat split; reflexivity.
Defined.

(** ** Ranges and checkpoints *)

Lemma py_range_count (n : Z) :
  py_range 0 n 1 = Ok (map Z.of_nat (seq 0 (Z.to_nat n))).
Proof.
  unfold py_range, range_length. cbn [Z.eqb Z.ltb Z.compare].
  f_equal.
  replace (Z.to_nat (if 0 <? n then (n - 0 - 1) / 1 + 1 else 0)) with (Z.to_nat n).
  - apply map_ext. intros i. lia.
  - destruct (Z.ltb_spec 0 n); [rewrite Z.div_1_r |]; lia.
Qed.

Lemma py_range_from_zero (stop step : Z) :
  0 < step ->
  py_range 0 stop step
  = Ok (map (fun i => Z.of_nat i * step)
            (seq 0 (Z.to_nat (if 0 <? stop then (stop - 1) / step + 1 else 0)))).
Proof.
  intros Hs. unfold py_range, range_length.
  assert (H0 : (step =? 0) = false) by (apply Z.eqb_neq; lia).
  assert (H1 : (0 <? step) = true) by (apply Z.ltb_lt; lia).
  rewrite H0, H1. f_equal.
  replace (stop - 0 - 1) with (stop - 1) by lia.
  apply map_ext. intros i. lia.
Qed.

Lemma multiples_increasing (step : Z) (a n : nat) :
  0 < step ->
  StronglySorted Z.lt (map (fun i => Z.of_nat i * step) (seq a n)).
Proof.
  intros Hs. revert a. induction n as [| n IH]; intros a; cbn.
  - constructor.
  - constructor; [apply IH |].
    apply Forall_forall. intros c Hc.
    apply in_map_iff in Hc. destruct Hc as (i & <- & Hi).
    apply in_seq in Hi. nia.
Qed.

Lemma checkpoints_ok (max_exits : Z) :
  20 <= max_exits ->
  checkpoints max_exits
  = Ok (map (fun i => Z.of_nat i * (max_exits / 20))
            (seq 0 (Z.to_nat (max_exits / (max_exits / 20) + 1)))).
Proof.
  intros H. unfold checkpoints.
  assert (Hs : 0 < max_exits / 20) by (apply Z.div_str_pos; lia).
  rewrite py_range_from_zero by exact Hs.
  assert (H1 : (0 <? max_exits + 1) = true) by (apply Z.ltb_lt; lia).
  rewrite H1. replace (max_exits + 1 - 1) with max_exits by lia. reflexivity.
Qed.

Lemma in_multiples (step bound c : Z) :
  0 < step -> 0 <= bound ->
  In c (map (fun i => Z.of_nat i * step) (seq 0 (Z.to_nat (bound / step + 1))))
  <-> 0 <= c <= bound /\ (step | c).
Proof.
  intros Hs Hb.
  assert (Hq : 0 <= bound / step) by (apply Z.div_pos; lia).
  rewrite in_map_iff. split.
  - intros (i & <- & Hi). apply in_seq in Hi.
    assert (Hi' : Z.of_nat i <= bound / step) by lia.
    split; [split; [nia |] | exists (Z.of_nat i); reflexivity].
    apply Z.le_trans with (bound / step * step); [nia |].
    rewrite Z.mul_comm. apply Z.mul_div_le. exact Hs.
  - intros ([Hc0 Hcb] & (k & ->)).
    assert (Hk0 : 0 <= k) by nia.
    exists (Z.to_nat k). split; [rewrite Z2Nat.id by exact Hk0; reflexivity |].
    apply in_seq.
    assert (Hk : k <= bound / step) by (apply Z.div_le_lower_bound; lia).
    lia.
Qed.

(** C3, as amended. For a population of at least 20 the checkpoints are
    0, s, 2s, ... in increasing order, where s = population // 20: exactly
    the multiples of s between 0 and the population. The population itself
    is among them exactly when s divides it. *)
Theorem checkpoints_are_multiples (max_exits : Z) :
  20 <= max_exits ->
  exists cps,
    checkpoints max_exits = Ok cps /\
    cps = map (fun i => Z.of_nat i * (max_exits / 20))
              (seq 0 (Z.to_nat (max_exits / (max_exits / 20) + 1))) /\
    StronglySorted Z.lt cps /\
    (forall c, In c cps <-> 0 <= c <= max_exits /\ (max_exits / 20 | c)) /\
    (In max_exits cps <-> (max_exits / 20 | max_exits)).
Proof.
  intros H.
  assert (Hs : 0 < max_exits / 20) by (apply Z.div_str_pos; lia).
  eexists. split; [apply checkpoints_ok; exact H |].
  split; [reflexivity |].
  split; [apply multiples_increasing; exact Hs |].
  split.
  - intros c. apply in_multiples; lia.
  - rewrite in_multiples by lia. split; [tauto | intros Hd; split; [lia | exact Hd]].
Qed.

(** C3 at a population of 45: the step is 2 and the checkpoints stop at 44. *)
Lemma checkpoints_are_multiples_witness :
  exists cps,
    checkpoints 45 = Ok cps /\
    cps = map (fun i => Z.of_nat i * (45 / 20))
              (seq 0 (Z.to_nat (45 / (45 / 20) + 1))) /\
    StronglySorted Z.lt cps /\
    (forall c, In c cps <-> 0 <= c <= 45 /\ (45 / 20 | c)) /\
    (In 45 cps <-> (45 / 20 | 45)).
Proof. apply (checkpoints_are_multiples 45). lia. Defined.

(** C3, as stated, fails: a population of 45 is not one of its own
    checkpoints. *)
Lemma population_45_is_no_checkpoint :
  ~ (exists cps, checkpoints 45 = Ok cps /\ In 45 cps).
Proof.
  intros (cps & H & Hin). vm_compute in H. injection H as <-.
  cbn in Hin. repeat (destruct Hin as [Hin | Hin]; [discriminate |]).
  exact Hin.
Qed.

(** ** The degenerate step *)

Lemma checkpoints_small (max_exits : Z) :
  0 <= max_exits < 20 -> checkpoints max_exits = Raise ValueError.
Proof.
  intros H. unfold checkpoints. rewrite Z.div_small by exact H. reflexivity.
Qed.

Lemma no_round_no_alignment (rounds : Z) (trials : list trial) (max_exits : Z) :
  rounds <= 0 ->
  align_configuration rounds trials max_exits
  = Ok {| aligned_exits := []; aligned_times := []; aligned_errors := [] |}.
Proof.
  intros Hr. unfold align_configuration. rewrite py_range_count.
  replace (Z.to_nat rounds) with 0%nat by lia. reflexivity.
Qed.

(** C4. For a population below 20 the step is 0 and the range over the
    checkpoints raises [ValueError]: with at least one round and one trial
    the aligner ends with this exception before any checkpoint is looked
    up. The configuration is refused by the range itself, the aligner has no
    test of its own, and no loop runs on a zero step. *)
Theorem degenerate_step_is_rejected (rounds : Z) (trials : list trial)
  (max_exits : Z) :
  0 <= max_exits < 20 -> 0 < rounds -> trials <> [] ->
  checkpoints max_exits = Raise ValueError /\
  align_configuration rounds trials max_exits = Raise ValueError.
Proof.
  intros H Hr Ht. pose proof (checkpoints_small max_exits H) as Hc.
  split; [exact Hc |].
  unfold align_configuration. rewrite py_range_count. cbn [bind].
  destruct (Z.to_nat rounds) as [| n] eqn:Hn; [lia |].
  destruct trials as [| t trials]; [contradiction |].
  cbn. unfold trial_step at 1. cbn. rewrite Hc. reflexivity.
Qed.

(** C4 at a population of 10 with three rounds. *)
Lemma degenerate_step_is_rejected_witness :
  checkpoints 10 = Raise ValueError /\
  align_configuration 3 three_trials 10 = Raise ValueError.
Proof.
  apply (degenerate_step_is_rejected 3 three_trials 10);
    [lia | lia | discriminate].
Defined.

(** ** Searching a mask *)

Lemma where_from_head (mask : list bool) (a : Z) :
  match where_from a mask with
  | [] => Forall (fun b => b = false) mask
  | i :: _ =>
      exists k : nat,
        i = a + Z.of_nat k /\ nth_error mask k = Some true /\
        forall j, (j < k)%nat -> nth_error mask j = Some false
  end.
Proof.
  revert a. induction mask as [| b mask IH]; intros a; cbn.
  - constructor.
  - destruct b.
    + exists 0%nat. split; [lia |]. split; [reflexivity | intros j Hj; lia].
    + specialize (IH (a + 1)).
      destruct (where_from (a + 1) mask) as [| i l].
      * constructor; [reflexivity | exact IH].
      * destruct IH as (k & -> & Hk & Hlt).
        exists (S k). split; [lia |]. split; [exact Hk |].
        intros [| j] Hj; cbn; [reflexivity | apply Hlt; lia].
Qed.

Lemma where_from_nil (mask : list bool) (a : Z) :
  where_from a mask = [] <-> Forall (fun b => b = false) mask.
Proof.
  revert a. induction mask as [| b mask IH]; intros a; cbn.
  - split; [constructor | reflexivity].
  - destruct b.
    + split; [discriminate | intros H; inversion H; discriminate].
    + rewrite IH. split; [constructor; auto | intros H; inversion H; auto].
Qed.

(** [np.where(mask)[0][0]] is the least index at which the mask holds. *)
Lemma first_index_spec (mask : list bool) :
  match py_index (np_where mask) 0 with
  | Ok i =>
      exists k : nat,
        i = Z.of_nat k /\ nth_error mask k = Some true /\
        forall j, (j < k)%nat -> nth_error mask j = Some false
  | Raise e => e = IndexError /\ Forall (fun b => b = false) mask
  end.
Proof.
  change 0 with (Z.of_nat 0). rewrite py_index_nat. unfold np_where.
  pose proof (where_from_head mask 0) as H.
  destruct (where_from 0 mask) as [| i l]; cbn.
  - auto.
  - destruct H as (k & -> & Hk). exists k. split; [lia | exact Hk].
Qed.

Lemma last_index_raises (mask : list bool) :
  (exists e, py_index (np_where mask) (-1) = Raise e) <->
  Forall (fun b => b = false) mask.
Proof.
  unfold np_where. rewrite <- (where_from_nil mask 0).
  destruct (where_from 0 mask) as [| i l] eqn:Hw.
  - rewrite py_index_nil. split; [reflexivity | eauto].
  - rewrite (py_index_last (i :: l) 0) by discriminate.
    split; [intros [e He]; discriminate | discriminate].
Qed.

Lemma mask_all_false {A : Type} (p : A -> bool) (l : list A) :
  Forall (fun b => b = false) (map p l) <-> forall x, In x l -> p x = false.
Proof.
  rewrite Forall_forall. split.
  - intros H x Hx. apply H. apply in_map. exact Hx.
  - intros H b Hb. apply in_map_iff in Hb. destruct Hb as (x & <- & Hx). auto.
Qed.

(** ** The stationary bounds *)

Lemma lower_bound_raises (times : list Q) :
  (forall t, In t times -> (t < 10)%Q) -> lower_bound times = Raise IndexError.
Proof.
  intros H. unfold lower_bound.
  pose proof (first_index_spec (map (fun t => Qle_bool 10 t) times)) as Hs.
  destruct (py_index _ 0) as [i | e].
  - destruct Hs as (k & _ & Hk & _).
    rewrite nth_error_map in Hk.
    destruct (nth_error times k) as [t |] eqn:Ht; [| discriminate].
    cbn in Hk. injection Hk as Hk. apply Qle_bool_iff in Hk.
    apply nth_error_In in Ht. apply H in Ht.
    exfalso. apply (Qlt_not_le _ _ Ht). exact Hk.
  - destruct Hs as [-> _]. reflexivity.
Qed.

Lemma lower_bound_ok (times : list Q) :
  (exists t, In t times /\ (10 <= t)%Q) <-> exists i, lower_bound times = Ok i.
Proof.
  unfold lower_bound.
  pose proof (first_index_spec (map (fun t => Qle_bool 10 t) times)) as Hs.
  destruct (py_index _ 0) as [i | e].
  - split; [eauto |]. intros _.
    destruct Hs as (k & _ & Hk & _).
    rewrite nth_error_map in Hk.
    destruct (nth_error times k) as [t |] eqn:Ht; [| discriminate].
    cbn in Hk. injection Hk as Hk. apply Qle_bool_iff in Hk.
    exists t. split; [eapply nth_error_In; eauto | exact Hk].
  - destruct Hs as [_ Hs]. rewrite mask_all_false in Hs.
    split; [| intros [i Hi]; discriminate].
    intros (t & Hin & Hle). apply Hs in Hin. apply Qle_bool_iff in Hle.
    congruence.
Qed.

Lemma upper_bound_raises (times : list Q) :
  (forall t, In t times -> (45 < t)%Q) -> upper_bound times = Raise IndexError.
Proof.
  intros H. unfold upper_bound.
  assert (Hf : Forall (fun b => b = false) (map (fun t => Qle_bool t 45) times)).
  { apply mask_all_false. intros t Ht. apply H in Ht.
    destruct (Qle_bool t 45) eqn:Hb; [| reflexivity].
    apply Qle_bool_iff in Hb. exfalso. apply (Qlt_not_le _ _ Ht). exact Hb. }
  apply (where_from_nil _ 0) in Hf. unfold np_where. rewrite Hf.
  apply py_index_nil.
Qed.

Lemma upper_bound_ok (times : list Q) :
  (exists t, In t times /\ (t <= 45)%Q) <-> exists i, upper_bound times = Ok i.
Proof.
  unfold upper_bound.
  pose proof (last_index_raises (map (fun t => Qle_bool t 45) times)) as Hs.
  rewrite mask_all_false in Hs.
  destruct (py_index _ (-1)) as [i | e].
  - split; [eauto |]. intros _.
    destruct (existsb (fun t => Qle_bool t 45) times) eqn:Hex.
    + apply existsb_exists in Hex. destruct Hex as (t & Hin & Hb).
      exists t. split; [exact Hin | apply Qle_bool_iff; exact Hb].
    + assert (Hall : forall t, In t times -> Qle_bool t 45 = false).
      { intros t Ht. destruct (Qle_bool t 45) eqn:Hb; [| reflexivity].
        assert (Hx : existsb (fun t => Qle_bool t 45) times = true)
          by (apply existsb_exists; eauto).
        congruence. }
      apply Hs in Hall. destruct Hall as [e He]. discriminate.
  - split; [| intros [i Hi]; discriminate].
    intros (t & Hin & Hle).
    assert (Hall : forall t, In t times -> Qle_bool t 45 = false)
      by (apply Hs; eauto).
    apply Hall in Hin. apply Qle_bool_iff in Hle. congruence.
Qed.

(** ** The windows *)

Lemma time_window_steps_value : time_window_steps = Z.of_nat window_length.
Proof. reflexivity. Qed.

Lemma time_steps_value : time_steps = Z.of_nat step_length.
Proof. reflexivity. Qed.

Lemma py_slice_in_range {A : Type} (l : list A) (k n : nat) :
  (k + n <= List.length l)%nat ->
  py_slice l (Z.of_nat k) (Z.of_nat k + Z.of_nat n) = firstn n (skipn k l).
Proof.
  intros H. unfold py_slice, clamp.
  assert (H1 : (Z.of_nat k <? 0) = false) by (apply Z.ltb_ge; lia).
  assert (H2 : (Z.of_nat k + Z.of_nat n <? 0) = false) by (apply Z.ltb_ge; lia).
  rewrite H1, H2.
  rewrite !Z.min_l by lia.
  replace (Z.to_nat (Z.of_nat k + Z.of_nat n - Z.of_nat k)) with n by lia.
  rewrite Nat2Z.id. reflexivity.
Qed.

Lemma window_step_in_range (exits : list Z) (st : list Q * list Q) (k : nat) :
  (k + window_length <= List.length exits)%nat ->
  window_step exits st (Z.of_nat k)
  = Ok (fst st ++
          [(inject_Z (nth (k + window_length - 1) exits 0%Z - nth k exits 0%Z)
            / (inject_Z (Z.of_nat window_length) * sample_interval))%Q],
        snd st ++ [(inject_Z (Z.of_nat k) * sample_interval)%Q]).
Proof.
  intros H. unfold window_step.
  rewrite time_window_steps_value.
  rewrite py_slice_in_range by exact H.
  assert (Hlen : List.length (firstn window_length (skipn k exits)) = window_length).
  { rewrite length_firstn, length_skipn. lia. }
  assert (Hpos : (0 < window_length)%nat) by (unfold window_length; lia).
  rewrite (py_index_last _ 0).
  2:{ intros Hnil. rewrite Hnil in Hlen. cbn in Hlen. lia. }
  change 0 with (Z.of_nat 0) at 1.
  rewrite (py_index_in_range _ 0%nat 0) by lia.
  cbn [bind]. rewrite Hlen.
  rewrite !nth_firstn.
  assert (Ha : (window_length - 1 <? window_length)%nat = true)
    by (apply Nat.ltb_lt; lia).
  assert (Hb : (0 <? window_length)%nat = true) by (apply Nat.ltb_lt; lia).
  rewrite Ha, Hb. rewrite !nth_skipn.
  replace (k + (window_length - 1))%nat with (k + window_length - 1)%nat by lia.
  rewrite Nat.add_0_r. reflexivity.
Qed.

Lemma windows_loop (len : nat) (exits : list Z) (n a : nat)
  (st : list Q * list Q) :
  (len <= List.length exits)%nat ->
  (forall i, a <= i < a + n -> step_length * i + window_length <= len)%nat ->
  ~ (step_length * (a + n) + window_length <= len)%nat ->
  for_each (window_step exits)
    (map (fun i => Z.of_nat i * time_steps) (seq a n)) st
  = Ok (fst st ++ map snd (reference_windows len exits (step_length * a)),
        snd st ++ map fst (reference_windows len exits (step_length * a))).
Proof.
  intros Hle. revert a st.
  induction n as [| n IH]; intros a st Hin Hout.
  - cbn [seq map for_each].
    rewrite reference_windows_equation_1.
    destruct (le_dec (step_length * a + window_length) len) as [Hl | Hr].
    + exfalso. apply Hout. rewrite Nat.add_0_r. exact Hl.
    + cbn. rewrite !app_nil_r. destruct st; reflexivity.
  - cbn [seq map for_each].
    rewrite time_steps_value.
    replace (Z.of_nat a * Z.of_nat step_length)
      with (Z.of_nat (step_length * a)) by lia.
    rewrite window_step_in_range.
    2:{ specialize (Hin a). lia. }
    cbn [bind].
    rewrite <- time_steps_value.
    rewrite (IH (S a)).
    2:{ intros i Hi. apply Hin. lia. }
    2:{ intros H. apply Hout. replace (a + S n)%nat with (S a + n)%nat by lia.
        exact H. }
    cbn [fst snd].
    rewrite (reference_windows_equation_1 len exits (step_length * a)).
    destruct (le_dec (step_length * a + window_length) len) as [Hl | Hr].
    + cbn [reference_windows_unfold_clause_1 map fst snd].
      replace (step_length * a + step_length)%nat with (step_length * S a)%nat
        by lia.
      rewrite <- !app_assoc. reflexivity.
    + exfalso. apply Hr. apply Hin. lia.
Qed.

(** The number of windows that [range] gives is the number of starts that
    fit. *)
Lemma window_count (len : nat) :
  let n := Z.to_nat (if 0 <? Z.of_nat len - time_window_steps + 1
                     then (Z.of_nat len - time_window_steps + 1 - 1) / time_steps + 1
                     else 0) in
  (forall i, 0 <= i < 0 + n -> step_length * i + window_length <= len)%nat /\
  ~ (step_length * (0 + n) + window_length <= len)%nat.
Proof.
  rewrite time_window_steps_value, time_steps_value.
  unfold window_length, step_length.
  destruct (Z.ltb_spec 0 (Z.of_nat len - Z.of_nat 400 + 1)) as [Hlt | Hge].
  - replace (Z.of_nat len - Z.of_nat 400 + 1 - 1) with (Z.of_nat len - 400) by lia.
    pose proof (Z.div_mod (Z.of_nat len - 400) 40 ltac:(lia)) as Hdm.
    pose proof (Z.mod_pos_bound (Z.of_nat len - 400) 40 ltac:(lia)) as Hmod.
    change (Z.of_nat 40) with 40.
    set (q := (Z.of_nat len - 400) / 40) in *.
    assert (Hq : 0 <= q) by (apply Z.div_pos; lia).
    cbv zeta. split.
    + intros i Hi. lia.
    + lia.
  - cbv zeta. cbn [Z.to_nat]. split; [intros i Hi; lia | lia].
Qed.

Lemma flow_rate_over_time_ok (times : list Q) (exits : list Z) :
  List.length times = List.length exits ->
  (exists t, In t times /\ (10 <= t)%Q) ->
  (exists t, In t times /\ (t <= 45)%Q) ->
  flow_rate_over_time times exits
  = Ok (map snd (reference_windows (List.length times) exits 0),
        map fst (reference_windows (List.length times) exits 0)).
Proof.
  intros Hlen Hlo Hup.
  apply lower_bound_ok in Hlo. destruct Hlo as [lo Hlo].
  apply upper_bound_ok in Hup. destruct Hup as [up Hup].
  unfold flow_rate_over_time. rewrite Hlo, Hup. cbn [bind].
  rewrite py_range_from_zero by (rewrite time_steps_value; unfold step_length; lia).
  cbn [bind].
  pose proof (window_count (List.length times)) as [Hin Hout].
  rewrite (windows_loop (List.length times) exits _ 0 ([], [])).
  - cbn [fst snd app]. rewrite Nat.mul_0_r. reflexivity.
  - lia.
  - exact Hin.
  - exact Hout.
Qed.

Lemma estimate_ok (times : list Q) (exits : list Z) :
  List.length times = List.length exits ->
  (exists t, In t times /\ (10 <= t)%Q) ->
  (exists t, In t times /\ (t <= 45)%Q) ->
  estimate times exits
  = Ok {| times := times; exits := exits;
          window_flow_rates :=
            map snd (reference_windows (List.length times) exits 0);
          window_times :=
            map fst (reference_windows (List.length times) exits 0);
          flow_rate :=
            np_mean (map snd (reference_windows (List.length times) exits 0)) |}.
Proof.
  intros Hlen Hlo Hup. unfold estimate.
  rewrite flow_rate_over_time_ok by assumption. reflexivity.
Qed.

Lemma fold_left_Qplus (l : list Q) (a : Q) :
  (fold_left Qplus l a == a + fold_right Qplus 0 l)%Q.
Proof.
  revert a. induction l as [| x l IH]; intros a; cbn.
  - ring.
  - rewrite IH. ring.
Qed.



Lemma uniform_log_bounds (n : nat) :
  (401 <= n)%nat ->
  List.length (uniform_times n) = List.length (uniform_exits n) /\
  (exists t, In t (uniform_times n) /\ (10 <= t)%Q) /\
  (exists t, In t (uniform_times n) /\ (t <= 45)%Q).
Proof.
  intros Hn. unfold uniform_times, uniform_exits.
  split; [rewrite !length_map; reflexivity |]. split.
  - exists (inject_Z (Z.of_nat 400) * dt)%Q. split; [| discriminate].
    apply in_map_iff. exists 400%nat. split; [reflexivity |].
    apply in_seq. lia.
  - exists (inject_Z (Z.of_nat 0) * dt)%Q. split; [| discriminate].
    apply in_map_iff. exists 0%nat. split; [reflexivity |].
    apply in_seq. lia.
Qed.


(** ** The constant-rate log *)

Lemma reference_windows_forall (P : Q * Q -> Prop) (len : nat) (exits : list Z) :
  (forall s,
     (s + window_length <= len)%nat ->
     P ((inject_Z (Z.of_nat s) * sample_interval)%Q,
        (inject_Z (nth (s + window_length - 1) exits 0%Z - nth s exits 0%Z)
         / (inject_Z (Z.of_nat window_length) * sample_interval))%Q)) ->
  forall start, Forall P (reference_windows len exits start).
Proof.
  intros HP start.
  remember (len - start)%nat as m eqn:Hm.
  revert start Hm. induction m as [m IH] using lt_wf_ind. intros start Hm.
  rewrite reference_windows_equation_1.
  destruct (le_dec (start + window_length) len) as [Hl | Hr].
  - cbn [reference_windows_unfold_clause_1].
    constructor; [apply HP; exact Hl |].
    apply (IH (len - (start + step_length))%nat); [| reflexivity].
    unfold window_length, step_length in *. lia.
  - constructor.
Qed.

Lemma reference_windows_nonempty (len : nat) (exits : list Z) :
  (window_length <= len)%nat -> reference_windows len exits 0 <> [].
Proof.
  intros H. rewrite reference_windows_equation_1.
  destruct (le_dec (0 + window_length) len) as [Hl | Hr].
  - discriminate.
  - exfalso. apply Hr. exact H.
Qed.

Lemma uniform_exits_nth (n i : nat) :
  (i < n)%nat -> nth i (uniform_exits n) 0 = Z.of_nat i.
Proof.
  intros H. unfold uniform_exits.
  change 0 with (Z.of_nat 0). rewrite map_nth. rewrite seq_nth by exact H.
  reflexivity.
Qed.

(** C1, on the code. On the log with [exits[i] = i] at the spacing of
    0.025 s, of any length that reaches the stationary period, samples are
    produced and every one equals 39.9, not 40: a window of 400 samples
    spans 399 intervals and its count is divided by 400 intervals. *)
Theorem constant_rate_samples (n : nat) :
  (401 <= n)%nat ->
  exists tr,
    estimate (uniform_times n) (uniform_exits n) = Ok tr /\
    window_flow_rates tr <> [] /\
    Forall (fun s => s == 39.9 /\ ~ s == 1 / dt)%Q (window_flow_rates tr).
Proof.
  intros Hn. destruct (uniform_log_bounds n Hn) as (Hlen & Hlo & Hup).
  eexists. split; [apply estimate_ok; assumption |].
  cbn [window_flow_rates].
  assert (Hl : List.length (uniform_times n) = n).
  { unfold uniform_times. rewrite length_map, length_seq. reflexivity. }
  rewrite Hl. split.
  - intros H. apply map_eq_nil in H. revert H.
    apply reference_windows_nonempty. unfold window_length. lia.
  - apply Forall_map.
    apply reference_windows_forall. intros s Hs. cbn [snd].
    rewrite !uniform_exits_nth by (unfold window_length in *; lia).
    replace (Z.of_nat (s + window_length - 1) - Z.of_nat s) with 399
      by (unfold window_length; lia).
    split; [reflexivity | discriminate].
Qed.

(** C1 on the log of 441 entries, which has two windows. *)
Lemma constant_rate_samples_witness :
  exists tr,
    estimate (uniform_times 441) (uniform_exits 441) = Ok tr /\
    window_flow_rates tr <> [] /\
    Forall (fun s => s == 39.9 /\ ~ s == 1 / dt)%Q (window_flow_rates tr).
Proof. apply (constant_rate_samples 441). lia. Defined.

(** ** The stationary period *)

Lemma estimate_ok_has_bounds (times : list Q) (exits : list Z) (tr : trial) :
  estimate times exits = Ok tr ->
  (exists t, In t times /\ (10 <= t)%Q) /\ (exists t, In t times /\ (t <= 45)%Q).
Proof.
  unfold estimate, flow_rate_over_time. intros H.
  destruct (lower_bound times) as [lo |] eqn:Hlo; [| discriminate].
  destruct (upper_bound times) as [up |] eqn:Hup; [| discriminate].
  split; [apply lower_bound_ok | apply upper_bound_ok]; eauto.
Qed.

(** C5, as amended. A log without any time of at least 10, or without any
    time of at most 45, makes the estimator raise [IndexError]: the trial
    yields no sample. The two searches are independent of each other: no
    single time has to lie between 10 and 45. *)
Theorem estimator_raises_without_bounds (times : list Q) (exits : list Z) :
  (forall t, In t times -> (t < 10)%Q) \/ (forall t, In t times -> (45 < t)%Q) ->
  estimate times exits = Raise IndexError.
Proof.
  intros [H | H]; unfold estimate, flow_rate_over_time.
  - rewrite lower_bound_raises by exact H. reflexivity.
  - destruct (lower_bound times) as [lo | e] eqn:Hlo.
    + rewrite upper_bound_raises by exact H. reflexivity.
    + unfold lower_bound in Hlo.
      pose proof (first_index_spec (map (fun t => Qle_bool 10 t) times)) as Hs.
      rewrite Hlo in Hs. destruct Hs as [-> _]. reflexivity.
Qed.

(** C5 on a log that ends before the stationary period. *)
Lemma estimator_raises_without_bounds_witness :
  estimate [0; 2.5; 5]%Q [0; 1; 3] = Raise IndexError.
Proof.
  apply (estimator_raises_without_bounds [0; 2.5; 5]%Q [0; 1; 3]).
  left. intros t [<- | [<- | [<- | []]]]; reflexivity.
Defined.

(** C5, as stated, fails: the log [gap_times] has one time before the
    stationary period and 399 after it, none inside, and the estimator
    produces a window on it. *)
Lemma gap_log_yields_a_sample :
  (forall t, In t gap_times -> ~ (10 <= t /\ t <= 45)%Q) /\
  exists tr, estimate gap_times gap_exits = Ok tr /\ window_flow_rates tr <> [].
Proof.
  split.
  - intros t [<- | Ht] [Hlo Hup].
    + exact (Hlo eq_refl).
    + apply repeat_spec in Ht. subst t. exact (Hup eq_refl).
  - eexists. split; [vm_compute; reflexivity | discriminate].
Qed.

(** ** The configuration summary *)

(** A loop that appends one value per index collects the values in order. *)
Lemma collect_loop {X Y : Type} (g : Z -> result X) (h : X -> Y) (js : list Z)
  (xs : list X) (acc : list Y) :
  Forall2 (fun j x => g j = Ok x) js xs ->
  for_each (fun acc j => x <- g j ;; Ok (acc ++ [h x])) js acc
  = Ok (acc ++ map h xs).
Proof.
  intros H. revert acc. induction H as [| j x js xs Hj _ IH]; intros acc; cbn.
  - rewrite app_nil_r. reflexivity.
  - rewrite Hj. cbn. rewrite IH. rewrite <- app_assoc. reflexivity.
Qed.

Lemma trial_at_nat (trials : list trial) (i : nat) :
  trial_at trials (Z.of_nat i) = of_option KeyError (nth_error trials i).
Proof.
  unfold trial_at.
  assert (H : (Z.of_nat i <? 0) = false) by (apply Z.ltb_ge; lia).
  rewrite H, Nat2Z.id. reflexivity.
Qed.

Lemma trials_in_order (pre suf : list trial) :
  Forall2 (fun j t => trial_at (pre ++ suf) j = Ok t)
    (map Z.of_nat (seq (List.length pre) (List.length suf))) suf.
Proof.
  revert pre. induction suf as [| t suf IH]; intros pre; cbn.
  - constructor.
  - constructor.
    + rewrite trial_at_nat. rewrite nth_error_app2 by lia.
      rewrite Nat.sub_diag. reflexivity.
    + specialize (IH (pre ++ [t])).
      rewrite <- app_assoc in IH. cbn in IH.
      rewrite length_app in IH. cbn in IH.
      rewrite Nat.add_1_r in IH. exact IH.
Qed.

Lemma Forall2_length_eq {X Y : Type} (P : X -> Y -> Prop) (xs : list X)
  (ys : list Y) :
  Forall2 P xs ys -> List.length xs = List.length ys.
Proof. induction 1; cbn; congruence. Qed.

Lemma run_configuration_ok {conv : Conversions} (rounds : Z)
  (log : Z -> list string) (ts : list trial) :
  Forall2 (fun j t => run_trial (log j) = Ok t)
    (map Z.of_nat (seq 0 (Z.to_nat rounds))) ts ->
  List.length ts = Z.to_nat rounds /\
  run_configuration rounds log
  = Ok {| trials := ts;
          summary := (np_mean_nan (map flow_rate ts),
                      np_std_nan (map flow_rate ts)) |}.
Proof.
  intros H.
  assert (Hlen : List.length ts = Z.to_nat rounds).
  { apply Forall2_length_eq in H. rewrite length_map, length_seq in H. auto. }
  split; [exact Hlen |].
  unfold run_configuration. rewrite py_range_count. cbn [bind].
  rewrite (collect_loop (fun j => run_trial (log j)) (fun t => t) _ ts) by exact H.
  cbn [bind app]. rewrite map_id.
  rewrite (collect_loop (trial_at ts) flow_rate _ ts).
  - reflexivity.
  - rewrite <- Hlen. exact (trials_in_order [] ts).
Qed.









Lemma np_mean_unfold (xs : list Q) :
  xs <> [] -> np_mean xs = Some (np_sum xs / count xs)%Q.
Proof. destruct xs; [contradiction | reflexivity]. Qed.





(** ** Reaching a checkpoint *)

Lemma where_from_first (exits : list Z) (c a : Z) :
  Exists (fun e => c <= e) exits ->
  (first_reach exits c < List.length exits)%nat /\
  exists l,
    where_from a (map (fun e => c <=? e) exits)
    = (a + Z.of_nat (first_reach exits c)) :: l.
Proof.
  revert a. induction exits as [| e exits IH]; intros a H.
  - inversion H.
  - cbn [map where_from first_reach List.length].
    destruct (Z.leb_spec c e) as [Hle | Hgt].
    + split; [lia |]. eexists. f_equal. lia.
    + assert (H' : Exists (fun e => c <= e) exits).
      { inversion H; subst; [lia | assumption]. }
      destruct (IH (a + 1) H') as [Hlt (l & Hl)].
      split; [lia |]. exists l. rewrite Hl. f_equal. lia.
Qed.

Lemma first_reach_index (exits : list Z) (c : Z) :
  Exists (fun e => c <= e) exits ->
  py_index (np_where (map (fun e => c <=? e) exits)) 0
  = Ok (Z.of_nat (first_reach exits c)).
Proof.
  intros H. destruct (where_from_first exits c 0 H) as [_ (l & Hl)].
  unfold np_where. rewrite Hl. rewrite py_index_head. reflexivity.
Qed.

Lemma first_reach_monotone (exits : list Z) (c1 c2 : Z) :
  c1 <= c2 -> (first_reach exits c1 <= first_reach exits c2)%nat.
Proof.
  intros Hc. induction exits as [| e exits IH]; cbn; [lia |].
  destruct (Z.leb_spec c1 e), (Z.leb_spec c2 e); lia.
Qed.

Lemma sorted_nth (l : list Q) (i j : nat) :
  StronglySorted Qle l -> (i <= j < List.length l)%nat ->
  (nth i l 0 <= nth j l 0)%Q.
Proof.
  intros H. revert i j. induction H as [| x l Hs IH Hx]; intros i j Hij.
  - cbn in Hij. lia.
  - destruct i as [| i], j as [| j]; cbn in *.
    + apply Qle_refl.
    + rewrite Forall_forall in Hx. apply Hx. apply nth_In. lia.
    + lia.
    + apply IH. lia.
Qed.

Lemma time_reached_monotone (t : trial) (c1 c2 : Z) :
  StronglySorted Qle (times t) ->
  List.length (times t) = List.length (exits t) ->
  Exists (fun e => c2 <= e) (exits t) ->
  c1 <= c2 ->
  (time_reached t c1 <= time_reached t c2)%Q.
Proof.
  intros Hs Hlen Hex Hc. unfold time_reached.
  apply sorted_nth; [exact Hs |].
  destruct (where_from_first (exits t) c2 0 Hex) as [Hlt _].
  pose proof (first_reach_monotone (exits t) c1 c2 Hc). lia.
Qed.

(** ** The table of the aligner *)

Lemma table_get_absent (keys : list Z) (f : Z -> list Q) (c : Z) :
  ~ In c keys -> table_get (table_of keys f) c = Raise KeyError.
Proof.
  induction keys as [| k keys IH]; intros Hc; cbn; [reflexivity |].
  destruct (Z.eqb_spec k c) as [-> | Hne].
  - exfalso. apply Hc. left. reflexivity.
  - apply IH. intros Hin. apply Hc. right. exact Hin.
Qed.

Lemma table_get_present (keys : list Z) (f : Z -> list Q) (c : Z) :
  In c keys -> table_get (table_of keys f) c = Ok (f c).
Proof.
  induction keys as [| k keys IH]; intros Hc; cbn; [contradiction |].
  destruct (Z.eqb_spec k c) as [-> | Hne]; [reflexivity |].
  apply IH. destruct Hc as [-> | Hc]; [contradiction | exact Hc].
Qed.

Lemma table_append_present (keys : list Z) (f : Z -> list Q) (c : Z) (x : Q) :
  NoDup keys ->
  table_append (table_of keys f) c x
  = table_of keys (fun k => if k =? c then f k ++ [x] else f k).
Proof.
  induction 1 as [| k keys Hk _ IH]; cbn; [reflexivity |].
  destruct (Z.eqb_spec k c) as [-> | Hne]; cbn.
  - f_equal. apply map_ext_in. intros k Hin.
    destruct (Z.eqb_spec k c) as [-> | _]; [contradiction | reflexivity].
  - f_equal. exact IH.
Qed.

Lemma table_of_ext (keys : list Z) (f g : Z -> list Q) :
  (forall k, In k keys -> f k = g k) -> table_of keys f = table_of keys g.
Proof.
  intros H. apply map_ext_in. intros k Hk. rewrite (H k Hk). reflexivity.
Qed.

Lemma checkpoint_step_reached (t : trial) (c : Z) (table : table) :
  List.length (times t) = List.length (exits t) ->
  Exists (fun e => c <= e) (exits t) ->
  checkpoint_step (times t) (exits t) table c
  = match table_get table c with
    | Ok _ => Ok (table_append table c (time_reached t c))
    | Raise KeyError => Ok (table_set_new table c (time_reached t c))
    | Raise e => Raise e
    end.
Proof.
  intros Hlen Hex. unfold checkpoint_step.
  rewrite (first_reach_index _ _ Hex). cbn [bind].
  destruct (where_from_first (exits t) c 0 Hex) as [Hlt _].
  rewrite (py_index_in_range (times t) _ 0%Q) by lia.
  reflexivity.
Qed.

(** The first trial makes the table, one key after the other. *)
Lemma first_trial_loop (t : trial) (done todo : list Z) :
  List.length (times t) = List.length (exits t) ->
  (forall c, In c todo -> Exists (fun e => c <= e) (exits t)) ->
  NoDup (done ++ todo) ->
  for_each (checkpoint_step (times t) (exits t)) todo
    (table_of done (fun c => [time_reached t c]))
  = Ok (table_of (done ++ todo) (fun c => [time_reached t c])).
Proof.
  intros Hlen. revert done.
  induction todo as [| c todo IH]; intros done Hex Hnd.
  - cbn. rewrite app_nil_r. reflexivity.
  - cbn [for_each].
    rewrite checkpoint_step_reached; [| exact Hlen | apply Hex; left; reflexivity].
    rewrite table_get_absent.
    2:{ apply NoDup_remove_2 in Hnd. intros Hin. apply Hnd.
        apply in_or_app. left. exact Hin. }
    cbn [bind].
    replace (table_set_new (table_of done (fun c0 => [time_reached t c0])) c
               (time_reached t c))
      with (table_of (done ++ [c]) (fun c0 => [time_reached t c0])).
    2:{ unfold table_of, table_set_new. rewrite map_app. reflexivity. }
    rewrite IH.
    + rewrite <- app_assoc. reflexivity.
    + intros c' Hc'. apply Hex. right. exact Hc'.
    + rewrite <- app_assoc. exact Hnd.
Qed.

(** A later trial appends one time to the row of every key. *)
Lemma later_trial_loop (t : trial) (keys todo : list Z) (f : Z -> list Q) :
  List.length (times t) = List.length (exits t) ->
  (forall c, In c todo -> Exists (fun e => c <= e) (exits t)) ->
  NoDup keys -> NoDup todo -> incl todo keys ->
  exists g,
    for_each (checkpoint_step (times t) (exits t)) todo (table_of keys f)
    = Ok (table_of keys g) /\
    (forall k, In k todo -> g k = f k ++ [time_reached t k]) /\
    (forall k, ~ In k todo -> g k = f k).
Proof.
  intros Hlen. revert f.
  induction todo as [| c todo IH]; intros f Hex Hnk Hnd Hincl.
  - exists f. cbn. split; [reflexivity |]. split; [contradiction | reflexivity].
  - cbn [for_each].
    rewrite checkpoint_step_reached; [| exact Hlen | apply Hex; left; reflexivity].
    rewrite table_get_present by (apply Hincl; left; reflexivity).
    cbn [bind]. rewrite table_append_present by exact Hnk.
    inversion Hnd as [| c' todo' Hc Hnd']; subst.
    destruct (IH (fun k => if k =? c then f k ++ [time_reached t c] else f k))
      as (g & Hg & Hin & Hout).
    + intros c' Hc'. apply Hex. right. exact Hc'.
    + exact Hnk.
    + exact Hnd'.
    + intros k Hk. apply Hincl. right. exact Hk.
    + exists g. split; [exact Hg |]. split.
      * intros k [<- | Hk].
        -- rewrite (Hout c Hc). rewrite Z.eqb_refl. reflexivity.
        -- rewrite (Hin k Hk).
           destruct (Z.eqb_spec k c) as [-> | _]; [contradiction | reflexivity].
      * intros k Hk. rewrite Hout by (intros Hin'; apply Hk; right; exact Hin').
        destruct (Z.eqb_spec k c) as [-> | _]; [| reflexivity].
        exfalso. apply Hk. left. reflexivity.
Qed.

Lemma skipn_nth_error {X : Type} (l : list X) (a : nat) (x : X) :
  nth_error l a = Some x -> skipn a l = x :: skipn (S a) l.
Proof.
  revert a. induction l as [| y l IH]; intros [| a] H; cbn in *;
    try discriminate.
  - injection H as ->. reflexivity.
  - apply IH. exact H.
Qed.

Section Aligner.
Variable trials : list trial.
Variable max_exits : Z.
Variable cps : list Z.
Hypothesis cps_ok : checkpoints max_exits = Ok cps.
Hypothesis cps_nodup : NoDup cps.
Hypothesis trials_aligned :
  forall t, In t trials -> List.length (times t) = List.length (exits t).
Hypothesis trials_reach :
  forall t c, In t trials -> In c cps -> Exists (fun e => c <= e) (exits t).

Lemma trial_step_first (t : trial) :
  nth_error trials 0 = Some t ->
  trial_step trials max_exits [] 0
  = Ok (table_of cps (fun c => [time_reached t c])).
Proof.
  intros Ht. unfold trial_step.
  change 0 with (Z.of_nat 0). rewrite trial_at_nat, Ht. cbn [of_option bind].
  rewrite cps_ok. cbn [bind].
  assert (Hin : In t trials) by (eapply nth_error_In; eauto).
  apply (first_trial_loop t [] cps).
  - apply trials_aligned. exact Hin.
  - intros c Hc. apply trials_reach; assumption.
  - exact cps_nodup.
Qed.

Lemma trial_step_later (t : trial) (a : nat) (f : Z -> list Q) :
  nth_error trials a = Some t ->
  trial_step trials max_exits (table_of cps f) (Z.of_nat a)
  = Ok (table_of cps (fun c => f c ++ [time_reached t c])).
Proof.
  intros Ht. unfold trial_step.
  rewrite trial_at_nat, Ht. cbn [of_option bind].
  rewrite cps_ok. cbn [bind].
  assert (Hin : In t trials) by (eapply nth_error_In; eauto).
  destruct (later_trial_loop t cps cps f) as (g & -> & Hg & _).
  - apply trials_aligned. exact Hin.
  - intros c Hc. apply trials_reach; assumption.
  - exact cps_nodup.
  - exact cps_nodup.
  - apply incl_refl.
  - f_equal. apply table_of_ext. exact Hg.
Qed.

Lemma trials_loop (n a : nat) (f : Z -> list Q) :
  (a + n <= List.length trials)%nat ->
  for_each (trial_step trials max_exits) (map Z.of_nat (seq a n))
    (table_of cps f)
  = Ok (table_of cps
          (fun c => f c ++ map (fun t => time_reached t c)
                             (firstn n (skipn a trials)))).
Proof.
  revert a f. induction n as [| n IH]; intros a f Hle.
  - cbn. f_equal. apply table_of_ext. intros k _. rewrite app_nil_r. reflexivity.
  - cbn [seq map for_each].
    destruct (nth_error trials a) as [t |] eqn:Ht.
    2:{ apply nth_error_None in Ht. lia. }
    rewrite (trial_step_later t a f Ht). cbn [bind].
    rewrite IH by lia.
    f_equal. apply table_of_ext. intros k _.
    rewrite (skipn_nth_error trials a t Ht). cbn [firstn map].
    rewrite <- app_assoc. reflexivity.
Qed.

Lemma exit_rate_comp_table (rounds : Z) :
  0 < rounds <= Z.of_nat (List.length trials) ->
  for_each (trial_step trials max_exits)
    (map Z.of_nat (seq 0 (Z.to_nat rounds))) []
  = Ok (table_of cps
          (fun c => map (fun t => time_reached t c)
                      (firstn (Z.to_nat rounds) trials))).
Proof.
  intros Hr.
  destruct (Z.to_nat rounds) as [| n] eqn:Hn; [lia |].
  cbn [seq map for_each].
  destruct (nth_error trials 0) as [t |] eqn:Ht.
  2:{ apply nth_error_None in Ht. lia. }
  change (Z.of_nat 0) with 0.
  rewrite (trial_step_first t Ht). cbn [bind].
  rewrite trials_loop by lia.
  f_equal. apply table_of_ext. intros k _.
  destruct trials as [| t' trials']; [discriminate |].
  cbn in Ht. injection Ht as ->. reflexivity.
Qed.
End Aligner.

(** ** Means over the trials *)

Lemma sum_map_le {X : Type} (f g : X -> Q) (l : list X) :
  (forall x, In x l -> (f x <= g x)%Q) ->
  (np_sum (map f l) <= np_sum (map g l))%Q.
Proof.
  intros H. unfold np_sum. rewrite !fold_left_Qplus, !Qplus_0_l.
  induction l as [| x l IH]; cbn.
  - apply Qle_refl.
  - apply Qplus_le_compat.
    + apply H. left. reflexivity.
    + apply IH. intros y Hy. apply H. right. exact Hy.
Qed.

Lemma mean_map_le {X : Type} (f g : X -> Q) (l : list X) :
  (forall x, In x l -> (f x <= g x)%Q) ->
  (np_sum (map f l) / count (map f l)
   <= np_sum (map g l) / count (map g l))%Q.
Proof.
  intros H. unfold count. rewrite !length_map. unfold Qdiv.
  apply Qmult_le_compat_r; [apply sum_map_le; exact H |].
  apply Qinv_le_0_compat.
  unfold Qle. cbn. lia.
Qed.

Lemma sorted_map {X Y : Type} (R1 : X -> X -> Prop) (R2 : Y -> Y -> Prop)
  (f : X -> Y) (l : list X) :
  (forall x y, In x l -> In y l -> R1 x y -> R2 (f x) (f y)) ->
  StronglySorted R1 l -> StronglySorted R2 (map f l).
Proof.
  intros Hf Hs. induction Hs as [| x l Hs IH Hx]; cbn; constructor.
  - apply IH. intros a b Ha Hb. apply Hf; right; assumption.
  - apply Forall_map. rewrite Forall_forall in *. intros y Hy.
    apply Hf; [left; reflexivity | right; exact Hy | apply Hx; exact Hy].
Qed.

Lemma sorted_lt_nodup (l : list Z) : StronglySorted Z.lt l -> NoDup l.
Proof.
  induction 1 as [| x l Hs IH Hx]; constructor; [| exact IH].
  intros Hin. rewrite Forall_forall in Hx. apply Hx in Hin. lia.
Qed.

Lemma checkpoints_increasing (max_exits : Z) :
  20 <= max_exits ->
  exists cps, checkpoints max_exits = Ok cps /\ StronglySorted Z.lt cps.
Proof.
  intros H. eexists. split; [apply checkpoints_ok; exact H |].
  apply multiples_increasing. apply Z.div_str_pos. lia.
Qed.

Lemma checkpoint_below_last (max_exits c : Z) (cps : list Z) :
  20 <= max_exits -> checkpoints max_exits = Ok cps -> In c cps ->
  c <= last_checkpoint max_exits.
Proof.
  intros H Hc Hin. rewrite checkpoints_ok in Hc by exact H.
  injection Hc as <-.
  assert (Hs : 0 < max_exits / 20) by (apply Z.div_str_pos; lia).
  assert (Hq : 0 <= max_exits / (max_exits / 20)) by (apply Z.div_pos; lia).
  apply in_map_iff in Hin. destruct Hin as (i & <- & Hi).
  apply in_seq in Hi. unfold last_checkpoint.
  apply Z.mul_le_mono_nonneg_r; lia.
Qed.

(** C8. With a population of at least 20 and at least one round, when
    every trial has as many times as exit counts, non-decreasing times, and
    an exit count that reaches the last checkpoint, the aligner returns; its
    keys are the checkpoints in increasing order; the time of a trial at a
    checkpoint is the time at the first index whose exit count is at least
    the checkpoint; and the means of these times over the trials are
    non-decreasing along the checkpoints. The order of the exit counts is
    not needed. *)
Theorem mean_times_are_monotone (rounds : Z) (trials : list trial)
  (max_exits : Z) :
  20 <= max_exits ->
  0 < rounds <= Z.of_nat (List.length trials) ->
  (forall t, In t trials ->
     List.length (times t) = List.length (exits t) /\
     StronglySorted Qle (times t) /\
     Exists (fun e => last_checkpoint max_exits <= e) (exits t)) ->
  exists al cps means,
    align_configuration rounds trials max_exits = Ok al /\
    checkpoints max_exits = Ok cps /\
    aligned_exits al = cps /\
    aligned_times al = map Some means /\
    means = map (fun c =>
                   let reached := map (fun t => time_reached t c)
                                    (firstn (Z.to_nat rounds) trials) in
                   (np_sum reached / count reached)%Q) cps /\
    StronglySorted Qle means.
Proof.
  intros Hpop Hr Htrials.
  destruct (checkpoints_increasing max_exits Hpop) as (cps & Hcps & Hsorted).
  assert (Hnodup : NoDup cps) by (apply sorted_lt_nodup; exact Hsorted).
  assert (Hreach : forall t c, In t trials -> In c cps ->
                               Exists (fun e => c <= e) (exits t)).
  { intros t c Ht Hc. destruct (Htrials t Ht) as (_ & _ & Hex).
    pose proof (checkpoint_below_last max_exits c cps Hpop Hcps Hc) as Hle.
    eapply Exists_impl; [| exact Hex]. cbn beta. intros e He. lia. }
  pose proof (exit_rate_comp_table trials max_exits cps Hcps Hnodup
                (fun t Ht => proj1 (Htrials t Ht)) Hreach rounds Hr) as Htable.
  set (sel := firstn (Z.to_nat rounds) trials) in *.
  assert (Hsel : sel <> []).
  { unfold sel. destruct trials; [cbn in Hr; lia |].
    destruct (Z.to_nat rounds) eqn:Hn; [lia | discriminate]. }
  eexists. exists cps.
  exists (map (fun c => let reached := map (fun t => time_reached t c) sel in
                        (np_sum reached / count reached)%Q) cps).
  split.
  { unfold align_configuration. rewrite py_range_count. cbn [bind].
    rewrite Htable. cbn [bind]. reflexivity. }
  cbn [aligned_exits aligned_times].
  split; [exact Hcps |]. split.
  { unfold table_of. rewrite map_map. cbn [fst]. apply map_id. }
  split.
  { unfold table_of. rewrite !map_map. cbn [snd].
    apply map_ext. intros c. cbv zeta.
    apply np_mean_unfold.
    destruct sel; [contradiction | discriminate]. }
  split; [reflexivity |].
  apply (sorted_map Z.lt); [| exact Hsorted].
  intros c1 c2 Hc1 Hc2 Hlt. cbv zeta.
  apply mean_map_le. intros t Ht.
  assert (Hin : In t trials).
  { rewrite <- (firstn_skipn (Z.to_nat rounds) trials).
    apply in_or_app. left. exact Ht. }
  destruct (Htrials t Hin) as (Hlen & Hs & _).
  apply time_reached_monotone; [exact Hs | exact Hlen | | lia].
  apply Hreach; assumption.
Qed.

(** C8 on three trials with a population of 20: the checkpoints are
    0, 1, ..., 20. *)
Lemma mean_times_are_monotone_witness :
  exists al cps means,
    align_configuration 3 three_trials 20 = Ok al /\
    checkpoints 20 = Ok cps /\
    aligned_exits al = cps /\
    aligned_times al = map Some means /\
    means = map (fun c =>
                   let reached := map (fun t => time_reached t c)
                                    (firstn (Z.to_nat 3) three_trials) in
                   (np_sum reached / count reached)%Q) cps /\
    StronglySorted Qle means.
Proof.
  apply (mean_times_are_monotone 3 three_trials 20); [lia | cbn; lia |].
  intros t [<- | [<- | [<- | []]]];
    (split; [reflexivity |]; split;
     [ repeat constructor; unfold Qle; cbn; lia
     | apply Exists_exists; exists 20;
       split; [cbn; tauto | vm_compute; discriminate] ]).
Defined.

(** ** The trend fitter *)

Lemma sum_nonneg {X : Type} (f : X -> Q) (l : list X) :
  (forall x, In x l -> (0 <= f x)%Q) -> (0 <= np_sum (map f l))%Q.
Proof.
  intros H. unfold np_sum. rewrite fold_left_Qplus, Qplus_0_l.
  induction l as [| x l IH]; cbn.
  - apply Qle_refl.
  - assert (H0 : (0 <= f x)%Q) by (apply H; left; reflexivity).
    assert (H1 : (0 <= fold_right Qplus 0 (map f l))%Q)
      by (apply IH; intros y Hy; apply H; right; exact Hy).
    lra.
Qed.

Lemma sum_zero_terms {X : Type} (f : X -> Q) (l : list X) :
  (forall x, In x l -> (0 <= f x)%Q) ->
  (np_sum (map f l) <= 0)%Q ->
  forall x, In x l -> (f x == 0)%Q.
Proof.
  intros Hpos. unfold np_sum. rewrite fold_left_Qplus, Qplus_0_l.
  induction l as [| y l IH]; cbn; intros Hsum x Hx; [contradiction |].
  assert (H0 : (0 <= f y)%Q) by (apply Hpos; left; reflexivity).
  assert (H1 : (0 <= np_sum (map f l))%Q)
    by (apply sum_nonneg; intros z Hz; apply Hpos; right; exact Hz).
  unfold np_sum in H1. rewrite fold_left_Qplus, Qplus_0_l in H1.
  destruct Hx as [-> | Hx].
  - lra.
  - apply IH; [intros z Hz; apply Hpos; right; exact Hz | lra | exact Hx].
Qed.

Lemma sum_of_zeros {X : Type} (f : X -> Q) (l : list X) :
  (forall x, In x l -> (f x == 0)%Q) -> (np_sum (map f l) == 0)%Q.
Proof.
  intros H. unfold np_sum. rewrite fold_left_Qplus, Qplus_0_l.
  induction l as [| x l IH]; cbn; [reflexivity |].
  rewrite (H x (or_introl eq_refl)).
  rewrite IH by (intros y Hy; apply H; right; exact Hy). ring.
Qed.

Lemma square_nonneg (r : Q) : (0 <= r * r)%Q.
Proof. nra. Qed.

Lemma square_zero (r : Q) : (r * r == 0)%Q -> (r == 0)%Q.
Proof. intros H. apply Qmult_integral in H. tauto. Qed.

Lemma on_the_line (xs ys : list Q) (m c : Q) (p : Q * Q) :
  Forall2 (fun x y => y == m * x + c)%Q xs ys ->
  In p (combine xs ys) -> (snd p == m * fst p + c)%Q.
Proof.
  induction 1 as [| x y xs ys Hxy _ IH]; cbn; [contradiction |].
  intros [<- | Hin]; [exact Hxy | apply IH; exact Hin].
Qed.

Lemma abscissa_has_point (xs ys : list Q) (m c x : Q) :
  Forall2 (fun x y => y == m * x + c)%Q xs ys ->
  In x xs -> exists y, In (x, y) (combine xs ys).
Proof.
  induction 1 as [| x' y xs ys _ _ IH]; cbn; [contradiction |].
  intros [-> | Hin].
  - exists y. left. reflexivity.
  - destruct (IH Hin) as [y' Hy']. exists y'. right. exact Hy'.
Qed.

(** A line that minimises the squared error of points on a line passes
    through each of them. *)
Lemma minimiser_passes_through (xs ys : list Q) (m c a b : Q) :
  Forall2 (fun x y => y == m * x + c)%Q xs ys ->
  (forall a' b', (squared_error xs ys a b <= squared_error xs ys a' b')%Q) ->
  forall x, In x xs -> (a * x + b == m * x + c)%Q.
Proof.
  intros Hline Hmin x Hx.
  destruct (abscissa_has_point xs ys m c x Hline Hx) as [y Hy].
  pose proof (on_the_line xs ys m c (x, y) Hline Hy) as Hxy. cbn in Hxy.
  assert (Hzero : (squared_error xs ys m c == 0)%Q).
  { unfold squared_error. apply sum_of_zeros. intros p Hp.
    rewrite (on_the_line xs ys m c p Hline Hp). ring. }
  specialize (Hmin m c). rewrite Hzero in Hmin.
  pose proof (sum_zero_terms
                (fun xy => (a * fst xy + b - snd xy) * (a * fst xy + b - snd xy))%Q
                (combine xs ys)
                (fun p _ => square_nonneg _) Hmin (x, y) Hy) as Hres.
  cbn in Hres. apply square_zero in Hres. lra.
Qed.

(** C9. The trend fitter calls the solver with the exit widths as
    abscissas, the flow rates as ordinates and the degree 1, reads the slope
    at index 0 and the intercept at index 1, and evaluates
    [slope * x + intercept] at each width. When the solver returns a
    least-squares line and the points lie on the line [y = m * x + c] with
    two distinct widths, the slope is [m] and the intercept is [c]. *)
Theorem trend_fit_recovers_line (fit : Fitting) (xs ys : list Q) (m c : Q) :
  least_squares_line xs ys (polyfit xs ys 1) ->
  Forall2 (fun x y => y == m * x + c)%Q xs ys ->
  (exists x1 x2, In x1 xs /\ In x2 xs /\ ~ (x1 == x2)%Q) ->
  exists slope intercept,
    polyfit xs ys 1 = [slope; intercept] /\
    trend_fit xs ys
    = Ok (slope, intercept, map (fun x => slope * x + intercept)%Q xs) /\
    (slope == m)%Q /\ (intercept == c)%Q.
Proof.
  intros (a & b & Hab & Hmin) Hline (x1 & x2 & H1 & H2 & Hne).
  exists a, b. split; [exact Hab |]. split.
  - unfold trend_fit. rewrite Hab.
    rewrite py_index_head.
    change 1 with (Z.of_nat 1). rewrite py_index_nat. reflexivity.
  - pose proof (minimiser_passes_through xs ys m c a b Hline Hmin x1 H1) as E1.
    pose proof (minimiser_passes_through xs ys m c a b Hline Hmin x2 H2) as E2.
    assert (Hprod : ((a - m) * (x1 - x2) == 0)%Q) by lra.
    apply Qmult_integral in Hprod.
    assert (Ha : (a == m)%Q).
    { destruct Hprod as [Hz | Hz]; [lra |]. exfalso. apply Hne. lra. }
    split; [exact Ha |]. rewrite Ha in E1. lra.
Qed.

(** C9 on the points (1,2), (2,4), (3,6), with the normal equations as
    the solver: slope 2, intercept 0. *)
Lemma trend_fit_recovers_line_witness :
  exists slope intercept,
    polyfit (Fitting := exact_fit) [1; 2; 3]%Q [2; 4; 6]%Q 1
    = [slope; intercept] /\
    trend_fit (fit := exact_fit) [1; 2; 3]%Q [2; 4; 6]%Q
    = Ok (slope, intercept,
          map (fun x => slope * x + intercept)%Q [1; 2; 3]%Q) /\
    (slope == 2)%Q /\ (intercept == 0)%Q.
Proof.
  apply (trend_fit_recovers_line exact_fit [1; 2; 3]%Q [2; 4; 6]%Q 2 0).
  - eexists. eexists. split; [vm_compute; reflexivity |].
    intros a' b'.
    apply Qle_trans with 0%Q; [vm_compute; discriminate |].
    unfold squared_error. apply sum_nonneg. intros p _. apply square_nonneg.
  - repeat constructor; reflexivity.
  - exists 1%Q, 2%Q. split; [left; reflexivity |].
    split; [right; left; reflexivity | discriminate].
Defined.

(** * Further properties of the script *)

(** ** The parser, line by line *)

Lemma parse_steps_inv {conv : Conversions} (lines : list string)
  (st st' : list Q * list Z) :
  for_each parse_step lines st = Ok st' ->
  exists rows,
    Forall2 (fun line row => parse_line line = Ok row) lines rows /\
    st' = (fst st ++ map fst rows, snd st ++ map snd rows).
Proof.
  revert st. induction lines as [| line lines IH]; intros st H; cbn in H.
  - injection H as <-. exists []. split; [constructor |].
    cbn. rewrite !app_nil_r. destruct st; reflexivity.
  - unfold parse_step at 1 in H.
    destruct (parse_line line) as [[t e] | err] eqn:Hp; cbn in H;
      [| discriminate].
    destruct (IH _ H) as (rows & Hrows & ->).
    exists ((t, e) :: rows). split; [constructor; assumption |].
    cbn. rewrite <- !app_assoc. reflexivity.
Qed.

(** X1. The two series that the parser returns have one entry per line. *)
Theorem parsed_series_have_one_entry_per_line (conv : Conversions)
  (lines : list string) (times : list Q) (exits : list Z) :
  parse_log lines = Ok (times, exits) ->
  List.length times = List.length lines /\
  List.length exits = List.length lines.
Proof.
  unfold parse_log. intros H.
  destruct (parse_steps_inv lines _ _ H) as (rows & Hrows & Heq).
  cbn in Heq. injection Heq as -> ->.
  apply Forall2_length_eq in Hrows.
  rewrite !length_map. split; symmetry; exact Hrows.
Qed.

Lemma parsed_series_have_one_entry_per_line_witness :
  List.length [5.0; -1.5]%Q = List.length ["5.0 3 junk"; "-1.5 -2"]%string /\
  List.length [3; -2] = List.length ["5.0 3 junk"; "-1.5 -2"]%string.
Proof.
  apply (parsed_series_have_one_entry_per_line decimal
           ["5.0 3 junk"; "-1.5 -2"]%string [5.0; -1.5]%Q [3; -2]).
  reflexivity.
Defined.

(** X2. The exception of a line tells what is wrong with it. [IndexError]: the
    line is blank, or holds a single token that is a real. [ValueError]: the
    first token is not a real, or the second is not an integer. The first
    token is converted before the second is looked up, so a single token
    that is not a real gives [ValueError]. *)
Theorem parse_line_exception_kinds (conv : Conversions) (line : string) :
  (parse_line line = Raise IndexError <->
   str_split line = [] \/
   exists d0 t, str_split line = [d0] /\ float_of_str d0 = Some t) /\
  (parse_line line = Raise ValueError <->
   (exists d0 rest, str_split line = d0 :: rest /\ float_of_str d0 = None) \/
   (exists d0 d1 rest t,
      str_split line = d0 :: d1 :: rest /\ float_of_str d0 = Some t /\
      int_of_str d1 = None)).
Proof.
  unfold parse_line.
  change 0 with (Z.of_nat 0). change 1 with (Z.of_nat 1).
  rewrite !py_index_nat.
  destruct (str_split line) as [| d0 [| d1 rest]]; cbn.
  - split; split.
    + intros _. left. reflexivity.
    + reflexivity.
    + discriminate.
    + intros [(a & r & H & _) | (a & b & r & t & H & _)]; discriminate.
  - destruct (float_of_str d0) as [t |] eqn:Ht; cbn; split; split.
    + intros _. right. exists d0, t. auto.
    + reflexivity.
    + discriminate.
    + intros [(a & r & [= <- <-] & Hn) | (a & b & r & t' & H & _)];
        [congruence | discriminate].
    + discriminate.
    + intros [H | (a & t' & [= <-] & Hs)]; [discriminate | congruence].
    + intros _. left. exists d0, []. auto.
    + reflexivity.
  - destruct (float_of_str d0) as [t |] eqn:Ht; cbn.
    + destruct (int_of_str d1) as [e |] eqn:He; cbn; split; split.
      * discriminate.
      * intros [H | (a & t' & H & _)]; discriminate.
      * discriminate.
      * intros [(a & r & [= <- <-] & Hn) | (a & b & r & t' & [= <- <- <-] & _ & Hn)];
          congruence.
      * discriminate.
      * intros [H | (a & t' & H & _)]; discriminate.
      * intros _. right. exists d0, d1, rest, t. auto.
      * reflexivity.
    + split; split.
      * discriminate.
      * intros [H | (a & t' & H & _)]; discriminate.
      * intros _. left. exists d0, (d1 :: rest). auto.
      * reflexivity.
Qed.

(** X3. The parser stops at the first line it cannot read and raises the
    exception of this line; the lines after it are not looked at. *)
Theorem parser_raises_at_first_bad_line (conv : Conversions)
  (good : list string) (rows : list (Q * Z)) (bad : string)
  (rest : list string) (e : exn) :
  Forall2 (fun line row => parse_line line = Ok row) good rows ->
  parse_line bad = Raise e ->
  parse_log (good ++ bad :: rest) = Raise e.
Proof.
  intros Hgood Hbad. unfold parse_log.
  generalize (@nil Q, @nil Z).
  induction Hgood as [| line [t c] good rows Hrow _ IH]; intros st; cbn.
  - unfold parse_step at 1. rewrite Hbad. reflexivity.
  - unfold parse_step at 1. rewrite Hrow. cbn. apply IH.
Qed.

Lemma parser_raises_at_first_bad_line_witness :
  parse_log (conv := decimal)
    (["0.5 3"%string] ++ "abc"%string :: ["7"%string; ""%string])
  = Raise ValueError.
Proof.
  apply (parser_raises_at_first_bad_line decimal
           ["0.5 3"%string] [(0.5%Q, 3)] "abc"%string ["7"; ""]%string).
  - repeat constructor.
  - reflexivity.
Defined.

(** ** The windows, one by one *)

Lemma reference_windows_as_map (len : nat) (exits : list Z) (n a : nat) :
  (forall i, a <= i < a + n -> step_length * i + window_length <= len)%nat ->
  ~ (step_length * (a + n) + window_length <= len)%nat ->
  reference_windows len exits (step_length * a)
  = map (fun i =>
           ((inject_Z (Z.of_nat (step_length * i)) * sample_interval)%Q,
            (inject_Z (nth (step_length * i + window_length - 1) exits 0%Z
                       - nth (step_length * i) exits 0%Z)
             / (inject_Z (Z.of_nat window_length) * sample_interval))%Q))
        (seq a n).
Proof.
  revert a. induction n as [| n IH]; intros a Hin Hout;
    rewrite reference_windows_equation_1;
    destruct (le_dec (step_length * a + window_length) len) as [Hl | Hr];
    cbn [reference_windows_unfold_clause_1 seq map].
  - exfalso. apply Hout. rewrite Nat.add_0_r. exact Hl.
  - reflexivity.
  - f_equal.
    replace (step_length * a + step_length)%nat with (step_length * S a)%nat
      by lia.
    apply IH.
    + intros i Hi. apply Hin. lia.
    + intros H. apply Hout. replace (a + S n)%nat with (S a + n)%nat by lia.
      exact H.
  - exfalso. apply Hr. apply Hin. lia.
Qed.

Lemma window_count_value (len : nat) :
  (window_length <= len)%nat ->
  Z.of_nat
    (Z.to_nat (if 0 <? Z.of_nat len - time_window_steps + 1
               then (Z.of_nat len - time_window_steps + 1 - 1) / time_steps + 1
               else 0))
  = (Z.of_nat len - 400) / 40 + 1.
Proof.
  intros H. rewrite time_window_steps_value, time_steps_value.
  unfold window_length, step_length in *.
  change (Z.of_nat 400) with 400. change (Z.of_nat 40) with 40.
  assert (Hlt : (0 <? Z.of_nat len - 400 + 1) = true) by (apply Z.ltb_lt; lia).
  rewrite Hlt.
  replace (Z.of_nat len - 400 + 1 - 1) with (Z.of_nat len - 400) by lia.
  assert (Hq : 0 <= (Z.of_nat len - 400) / 40) by (apply Z.div_pos; lia).
  lia.
Qed.


Lemma start_time_scale (i : nat) :
  (inject_Z (Z.of_nat (step_length * i)) * sample_interval
   == inject_Z (Z.of_nat i))%Q.
Proof.
  unfold step_length, sample_interval, Qeq. cbn [Qnum Qden inject_Z Qmult].
  lia.
Qed.

(** X4. A log too short for a window gives no sample and the flow rate [nan];
    no exception is raised. *)
Theorem short_log_has_no_window (times : list Q) (exits : list Z) :
  (List.length times < window_length)%nat ->
  (exists t, In t times /\ (10 <= t)%Q) ->
  (exists t, In t times /\ (t <= 45)%Q) ->
  estimate times exits
  = Ok {| times := times; exits := exits;
          window_flow_rates := []; window_times := []; flow_rate := None |}.
Proof.
  intros Hshort Hlo Hup.
  apply lower_bound_ok in Hlo. destruct Hlo as [lo Hlo].
  apply upper_bound_ok in Hup. destruct Hup as [up Hup].
  unfold estimate, flow_rate_over_time. rewrite Hlo, Hup. cbn [bind].
  rewrite py_range_from_zero by (rewrite time_steps_value; unfold step_length; lia).
  rewrite time_window_steps_value.
  assert (H0 : (0 <? Z.of_nat (List.length times) - Z.of_nat window_length + 1)
               = false) by (apply Z.ltb_ge; lia).
  rewrite H0. reflexivity.
Qed.

Lemma short_log_has_no_window_witness :
  estimate [0; 10; 20; 30]%Q [0; 7; 15; 20]
  = Ok {| times := [0; 10; 20; 30]%Q; exits := [0; 7; 15; 20];
          window_flow_rates := []; window_times := []; flow_rate := None |}.
Proof.
  apply (short_log_has_no_window [0; 10; 20; 30]%Q [0; 7; 15; 20]).
  - unfold window_length. cbn. lia.
  - exists 10%Q. split; [cbn; tauto | discriminate].
  - exists 0%Q. split; [cbn; tauto | discriminate].
Defined.

(** X5. A log of [len >= 400] entries gives [(len - 400) // 40 + 1] windows,
    as many start times as samples, and the window of index [i] starts at
    the time [i] seconds, whatever the times of the log are. *)
Theorem window_series_shape (times : list Q) (exits : list Z) :
  List.length times = List.length exits ->
  (exists t, In t times /\ (10 <= t)%Q) ->
  (exists t, In t times /\ (t <= 45)%Q) ->
  (window_length <= List.length times)%nat ->
  exists tr,
    estimate times exits = Ok tr /\
    Z.of_nat (List.length (window_flow_rates tr))
    = (Z.of_nat (List.length times) - 400) / 40 + 1 /\
    List.length (window_times tr) = List.length (window_flow_rates tr) /\
    forall i, (i < List.length (window_times tr))%nat ->
              (nth i (window_times tr) 0 == inject_Z (Z.of_nat i))%Q.
Proof.
  intros Hlen Hlo Hup Hlong.
  eexists. split; [apply estimate_ok; assumption |].
  cbn [window_flow_rates window_times].
  pose proof (window_count (List.length times)) as [Hin Hout].
  cbv zeta in Hin, Hout.
  pose proof (reference_windows_as_map (List.length times) exits _ 0 Hin Hout)
    as Href.
  rewrite Nat.mul_0_r in Href. rewrite Href.
  rewrite !length_map, !length_seq.
  split; [apply window_count_value; exact Hlong |].
  split; [reflexivity |].
  intros i Hi. rewrite map_map. cbn [fst].
  rewrite (nth_indep _ 0%Q
             (inject_Z (Z.of_nat (step_length * 0)) * sample_interval)%Q)
    by (rewrite length_map, length_seq; exact Hi).
  rewrite (map_nth (fun i => (inject_Z (Z.of_nat (step_length * i))
                              * sample_interval)%Q)).
  rewrite seq_nth by exact Hi. cbn [Nat.add].
  apply start_time_scale.
Qed.

Lemma window_series_shape_witness :
  exists tr,
    estimate (uniform_times 441) (uniform_exits 441) = Ok tr /\
    Z.of_nat (List.length (window_flow_rates tr))
    = (Z.of_nat (List.length (uniform_times 441)) - 400) / 40 + 1 /\
    List.length (window_times tr) = List.length (window_flow_rates tr) /\
    forall i, (i < List.length (window_times tr))%nat ->
              (nth i (window_times tr) 0 == inject_Z (Z.of_nat i))%Q.
Proof.
  apply (window_series_shape (uniform_times 441) (uniform_exits 441));
    try apply (uniform_log_bounds 441); try lia.
  unfold uniform_times, window_length. rewrite length_map, length_seq. lia.
Defined.

(** X6. The times of the log are read for the two searches only: two logs of
    the same length with the same exit counts that both pass the searches
    give the same windows and the same flow rate, however their times are
    spaced. *)
Theorem windows_do_not_depend_on_times (times1 times2 : list Q)
  (exits : list Z) :
  List.length times1 = List.length exits ->
  List.length times2 = List.length exits ->
  (exists t, In t times1 /\ (10 <= t)%Q) ->
  (exists t, In t times1 /\ (t <= 45)%Q) ->
  (exists t, In t times2 /\ (10 <= t)%Q) ->
  (exists t, In t times2 /\ (t <= 45)%Q) ->
  exists tr1 tr2,
    estimate times1 exits = Ok tr1 /\
    estimate times2 exits = Ok tr2 /\
    window_flow_rates tr1 = window_flow_rates tr2 /\
    window_times tr1 = window_times tr2 /\
    flow_rate tr1 = flow_rate tr2.
Proof.
  intros H1 H2 Hlo1 Hup1 Hlo2 Hup2.
  eexists. eexists.
  split; [apply estimate_ok; assumption |].
  split; [apply estimate_ok; assumption |].
  cbn. rewrite H1, H2. repeat split.
Qed.

Lemma windows_do_not_depend_on_times_witness :
  exists tr1 tr2,
    estimate (uniform_times 441) (uniform_exits 441) = Ok tr1 /\
    estimate jump_times (uniform_exits 441) = Ok tr2 /\
    window_flow_rates tr1 = window_flow_rates tr2 /\
    window_times tr1 = window_times tr2 /\
    flow_rate tr1 = flow_rate tr2.
Proof.
  apply (windows_do_not_depend_on_times (uniform_times 441) jump_times
           (uniform_exits 441)).
  - apply (uniform_log_bounds 441). lia.
  - vm_compute. reflexivity.
  - apply (uniform_log_bounds 441). lia.
  - apply (uniform_log_bounds 441). lia.
  - exists 50%Q. split; [right; left; reflexivity | discriminate].
  - exists 0%Q. split; [left; reflexivity | discriminate].
Defined.





(** ** Bounds on the flow rate *)













(** ** Trials that fail, rounds that are missing *)

Lemma for_each_first_failure {S X : Type} (body : S -> X -> result S)
  (pre : list X) (x : X) (post : list X) (e : exn) (s : S) :
  (forall s y, In y pre -> exists s', body s y = Ok s') ->
  (forall s, body s x = Raise e) ->
  for_each body (pre ++ x :: post) s = Raise e.
Proof.
  intros Hpre Hx. revert s. induction pre as [| y pre IH]; intros s; cbn.
  - rewrite Hx. reflexivity.
  - destruct (Hpre s y (or_introl eq_refl)) as [s' ->]. cbn.
    apply IH. intros s0 z Hz. apply Hpre. right. exact Hz.
Qed.

Lemma seq_split_at (n i : nat) :
  (i < n)%nat -> seq 0 n = seq 0 i ++ i :: seq (S i) (n - S i).
Proof.
  intros H. replace n with (i + S (n - S i))%nat at 1 by lia.
  rewrite seq_app. reflexivity.
Qed.

(** X10. The trials of a width run in order, and the first one that fails ends
    the sweep of the width with its exception: the later trials are not
    run and no summary is made. *)
Theorem first_failing_trial_ends_the_configuration (conv : Conversions)
  (rounds : Z) (log : Z -> list string) (j0 : Z) (e : exn) :
  0 <= j0 < rounds ->
  (forall j, 0 <= j < j0 -> exists t, run_trial (log j) = Ok t) ->
  run_trial (log j0) = Raise e ->
  run_configuration rounds log = Raise e.
Proof.
  intros Hj Hbefore Hfail.
  unfold run_configuration. rewrite py_range_count. cbn [bind].
  rewrite (seq_split_at (Z.to_nat rounds) (Z.to_nat j0)) by lia.
  rewrite map_app. cbn [map]. rewrite Z2Nat.id by lia.
  rewrite for_each_first_failure with (e := e); [reflexivity | |].
  - intros s y Hy. apply in_map_iff in Hy. destruct Hy as (i & <- & Hi).
    apply in_seq in Hi.
    destruct (Hbefore (Z.of_nat i) ltac:(lia)) as [t Ht].
    rewrite Ht. cbn. eauto.
  - intros s. rewrite Hfail. reflexivity.
Qed.

Lemma first_failing_trial_ends_the_configuration_witness :
  run_configuration (conv := decimal) 3
    (fun j => if j =? 1 then ["abc"%string] else diagonal_text 441)
  = Raise ValueError.
Proof.
  apply (first_failing_trial_ends_the_configuration decimal 3
           (fun j => if j =? 1 then ["abc"%string] else diagonal_text 441)
           1 ValueError).
  - lia.
  - intros j Hj. assert (j = 0) as -> by lia.
    exists diagonal_trial. vm_compute. reflexivity.
  - reflexivity.
Defined.

(** X11. With no round (a round count of 0 or less) no trial is run, the
    configuration has no trial, and its mean and deviation are [nan]: the
    mean of an empty list. No exception is raised. *)
Theorem no_round_gives_nan (conv : Conversions) (rounds : Z)
  (log : Z -> list string) :
  rounds <= 0 ->
  run_configuration rounds log
  = Ok {| trials := []; summary := (None, None) |}.
Proof.
  intros H. unfold run_configuration. rewrite py_range_count.
  replace (Z.to_nat rounds) with 0%nat by lia. reflexivity.
Qed.

Lemma no_round_gives_nan_witness :
  run_configuration (conv := decimal) 0 diagonal_log
  = Ok {| trials := []; summary := (None, None) |}.
Proof. apply (no_round_gives_nan decimal 0 diagonal_log). lia. Defined.

Lemma estimate_short_is_nan (ts : list Q) (es : list Z) (tr : trial) :
  estimate ts es = Ok tr ->
  times tr = ts /\
  ((List.length ts < window_length)%nat -> flow_rate tr = None).
Proof.
  unfold estimate, flow_rate_over_time. intros H.
  destruct (lower_bound ts) as [lo |]; [| discriminate].
  destruct (upper_bound ts) as [up |]; [| discriminate].
  cbn [bind] in H.
  rewrite py_range_from_zero in H
    by (rewrite time_steps_value; unfold step_length; lia).
  cbn [bind] in H.
  destruct (Z.ltb_spec 0 (Z.of_nat (List.length ts) - time_window_steps + 1))
    as [Hlong | Hshort].
  - destruct (for_each _ _ _) as [[frs wts] |]; [| discriminate].
    cbn in H. injection H as <-. cbn. split; [reflexivity |].
    rewrite time_window_steps_value in Hlong. intros Hs. lia.
  - cbn in H. injection H as <-. cbn. auto.
Qed.

Lemma run_trial_short_is_nan {conv : Conversions} (lines : list string)
  (tr : trial) :
  run_trial lines = Ok tr ->
  (List.length (times tr) < window_length)%nat -> flow_rate tr = None.
Proof.
  unfold run_trial. intros H.
  destruct (parse_log lines) as [[ts es] |]; [| discriminate].
  cbn in H. destruct (estimate_short_is_nan ts es tr H) as [-> Hnan].
  exact Hnan.
Qed.

Lemma finite_values_nan (l : list float) :
  In None l -> finite_values l = None.
Proof.
  induction l as [| x l IH]; intros H; [contradiction |].
  destruct x as [q |]; cbn; [| reflexivity].
  destruct H as [H | H]; [discriminate |].
  rewrite (IH H). reflexivity.
Qed.

Lemma Forall2_in_right {X Y : Type} (P : X -> Y -> Prop) (xs : list X)
  (ys : list Y) (y : Y) :
  Forall2 P xs ys -> In y ys -> exists x, In x xs /\ P x y.
Proof.
  induction 1 as [| x y' xs ys Hxy _ IH]; intros Hin; [contradiction |].
  destruct Hin as [<- | Hin].
  - exists x. split; [left; reflexivity | exact Hxy].
  - destruct (IH Hin) as (x' & Hx' & HP). exists x'. split; [right |]; assumption.
Qed.

(** X12. A trial whose log is too short for a window has the flow rate [nan],
    and one such trial among the rounds makes the mean and the deviation of
    the configuration [nan]; nothing guards against it. *)
Theorem short_trial_makes_the_summary_nan (conv : Conversions) (rounds : Z)
  (log : Z -> list string) (ts : list trial) :
  Forall2 (fun j t => run_trial (log j) = Ok t)
    (map Z.of_nat (seq 0 (Z.to_nat rounds))) ts ->
  (exists t, In t ts /\ (List.length (times t) < window_length)%nat) ->
  run_configuration rounds log
  = Ok {| trials := ts; summary := (None, None) |}.
Proof.
  intros Hall (t & Hin & Hshort).
  destruct (run_configuration_ok rounds log ts Hall) as [_ ->].
  destruct (Forall2_in_right _ _ _ t Hall Hin) as (j & _ & Hj).
  pose proof (run_trial_short_is_nan (log j) t Hj Hshort) as Hnan.
  assert (Hnone : finite_values (map flow_rate ts) = None).
  { apply finite_values_nan. rewrite <- Hnan. apply in_map. exact Hin. }
  unfold np_mean_nan, np_std_nan. rewrite Hnone. reflexivity.
Qed.

Lemma short_trial_makes_the_summary_nan_witness :
  run_configuration (conv := decimal) 2 mixed_log
  = Ok {| trials := [diagonal_trial; flat_trial]; summary := (None, None) |}.
Proof.
  apply (short_trial_makes_the_summary_nan decimal 2 mixed_log
           [diagonal_trial; flat_trial]).
  - constructor; [vm_compute; reflexivity |].
    constructor; [vm_compute; reflexivity | constructor].
  - exists flat_trial. split; [right; left; reflexivity |].
    unfold window_length. vm_compute. lia.
Defined.

(** ** The checkpoints and the table, step by step *)

(** X13. For every population of at least 20 the aligner uses between 21 and 40
    checkpoints. *)
Theorem checkpoint_count_is_between_21_and_40 (max_exits : Z) :
  20 <= max_exits ->
  exists cps,
    checkpoints max_exits = Ok cps /\
    (21 <= List.length cps <= 40)%nat.
Proof.
  intros H. eexists. split; [apply checkpoints_ok; exact H |].
  rewrite length_map, length_seq.
  assert (Hs : 0 < max_exits / 20) by (apply Z.div_str_pos; lia).
  pose proof (Z.mul_div_le max_exits 20 ltac:(lia)) as Hlow.
  pose proof (Z.mul_succ_div_gt max_exits 20 ltac:(lia)) as Hhigh.
  assert (Hge : 20 <= max_exits / (max_exits / 20))
    by (apply Z.div_le_lower_bound; lia).
  assert (Hlt : max_exits / (max_exits / 20) < 40)
    by (apply Z.div_lt_upper_bound; lia).
  lia.
Qed.

Lemma checkpoint_count_is_between_21_and_40_witness :
  exists cps,
    checkpoints 45 = Ok cps /\ (21 <= List.length cps <= 40)%nat.
Proof. apply (checkpoint_count_is_between_21_and_40 45). lia. Defined.

Lemma table_get_raises (d : table) (k : Z) (e : exn) :
  table_get d k = Raise e -> e = KeyError.
Proof.
  induction d as [| [k' v] d IH]; cbn.
  - intros [= <-]. reflexivity.
  - destruct (k' =? k); [discriminate | exact IH].
Qed.

Lemma table_get_append_same (d : table) (k : Z) (row : list Q) (x : Q) :
  table_get d k = Ok row -> table_get (table_append d k x) k = Ok (row ++ [x]).
Proof.
  induction d as [| [k' v] d IH]; cbn; [discriminate |].
  destruct (k' =? k) eqn:Hk; cbn; rewrite Hk.
  - intros [= <-]. reflexivity.
  - exact IH.
Qed.

Lemma table_get_append_other (d : table) (k k' : Z) (x : Q) :
  k' <> k -> table_get (table_append d k x) k' = table_get d k'.
Proof.
  intros Hne. induction d as [| [k0 v] d IH]; cbn; [reflexivity |].
  destruct (Z.eqb_spec k0 k) as [-> | Hk]; cbn.
  - destruct (Z.eqb_spec k k'); [congruence | reflexivity].
  - destruct (k0 =? k'); [reflexivity | exact IH].
Qed.

Lemma table_get_set_new_same (d : table) (k : Z) (x : Q) :
  table_get d k = Raise KeyError ->
  table_get (table_set_new d k x) k = Ok [x].
Proof.
  unfold table_set_new. induction d as [| [k' v] d IH]; cbn.
  - intros _. rewrite Z.eqb_refl. reflexivity.
  - destruct (k' =? k); [discriminate | exact IH].
Qed.

Lemma table_get_set_new_other (d : table) (k k' : Z) (x : Q) :
  k' <> k -> table_get (table_set_new d k x) k' = table_get d k'.
Proof.
  intros Hne. unfold table_set_new.
  induction d as [| [k0 v] d IH]; cbn.
  - destruct (Z.eqb_spec k k'); [congruence | reflexivity].
  - destruct (k0 =? k'); [reflexivity | exact IH].
Qed.

(** X14. One step of the aligner that succeeds records exactly one time, under
    its checkpoint: the time at the first index whose exit count reaches the
    checkpoint is appended to the row of the checkpoint, or starts this row
    when the checkpoint is new, and the rows of the other checkpoints are
    as before. *)
Theorem checkpoint_step_records_one_time (ts : list Q) (es : list Z)
  (average_times average_times' : table) (exit_count : Z) :
  checkpoint_step ts es average_times exit_count = Ok average_times' ->
  exists index t,
    py_index (np_where (map (fun e => exit_count <=? e) es)) 0 = Ok index /\
    py_index ts index = Ok t /\
    table_get average_times' exit_count
    = Ok (match table_get average_times exit_count with
          | Ok row => row ++ [t]
          | Raise _ => [t]
          end) /\
    forall k, k <> exit_count ->
              table_get average_times' k = table_get average_times k.
Proof.
  unfold checkpoint_step. intros H.
  destruct (py_index (np_where _) 0) as [index |]; [| discriminate].
  cbn [bind] in H. exists index.
  destruct (table_get average_times exit_count) as [row | e] eqn:Hget.
  - destruct (py_index ts index) as [t |]; [| discriminate].
    cbn in H. injection H as <-. exists t.
    split; [reflexivity |]. split; [reflexivity |]. split.
    + apply table_get_append_same. exact Hget.
    + intros k Hk. apply table_get_append_other. exact Hk.
  - pose proof (table_get_raises _ _ _ Hget) as ->.
    destruct (py_index ts index) as [t |]; [| discriminate].
    cbn in H. injection H as <-. exists t.
    split; [reflexivity |]. split; [reflexivity |]. split.
    + apply table_get_set_new_same. exact Hget.
    + intros k Hk. apply table_get_set_new_other. exact Hk.
Qed.

Lemma checkpoint_step_records_one_time_witness :
  exists index t,
    py_index (np_where (map (fun e => 15 <=? e) [0; 7; 15; 20])) 0 = Ok index /\
    py_index [0; 10; 20; 30]%Q index = Ok t /\
    table_get [(0, [1%Q]); (15, [12%Q; 20%Q])] 15
    = Ok (match table_get [(0, [1%Q]); (15, [12%Q])] 15 with
          | Ok row => row ++ [t]
          | Raise _ => [t]
          end) /\
    forall k, k <> 15 ->
              table_get [(0, [1%Q]); (15, [12%Q; 20%Q])] k
              = table_get [(0, [1%Q]); (15, [12%Q])] k.
Proof.
  apply (checkpoint_step_records_one_time [0; 10; 20; 30]%Q [0; 7; 15; 20]
           [(0, [1%Q]); (15, [12%Q])] [(0, [1%Q]); (15, [12%Q; 20%Q])] 15).
  reflexivity.
Defined.

(** ** A trial that stops short of a checkpoint *)

Lemma py_index_raises {A : Type} (l : list A) (i : Z) (e : exn) :
  py_index l i = Raise e -> e = IndexError.
Proof.
  unfold py_index.
  destruct ((_ <? 0) || (_ <=? _)); [intros [= <-]; reflexivity |].
  destruct (nth_error l _); cbn; [discriminate | intros [= <-]; reflexivity].
Qed.

Lemma checkpoint_step_outcome (ts : list Q) (es : list Z)
  (average_times : table) (c : Z) :
  (exists average_times', checkpoint_step ts es average_times c
                          = Ok average_times') \/
  checkpoint_step ts es average_times c = Raise IndexError.
Proof.
  unfold checkpoint_step.
  destruct (py_index (np_where _) 0) as [index | e] eqn:Hi; cbn [bind].
  2:{ right. apply py_index_raises in Hi. subst e. reflexivity. }
  destruct (table_get average_times c) as [row | e] eqn:Hget.
  - destruct (py_index ts index) as [t | e] eqn:Ht; cbn; [left; eauto |].
    right. apply py_index_raises in Ht. subst e. reflexivity.
  - pose proof (table_get_raises _ _ _ Hget) as ->.
    destruct (py_index ts index) as [t | e] eqn:Ht; cbn; [left; eauto |].
    right. apply py_index_raises in Ht. subst e. reflexivity.
Qed.

Lemma checkpoint_step_unreached (ts : list Q) (es : list Z)
  (average_times : table) (c : Z) :
  Forall (fun e => e < c) es ->
  checkpoint_step ts es average_times c = Raise IndexError.
Proof.
  intros H. unfold checkpoint_step.
  pose proof (first_index_spec (map (fun e => c <=? e) es)) as Hs.
  destruct (py_index (np_where _) 0) as [index | e].
  - destruct Hs as (k & _ & Hk & _). exfalso.
    rewrite nth_error_map in Hk.
    destruct (nth_error es k) as [x |] eqn:Hx; [| discriminate].
    cbn in Hk. injection Hk as Hk. apply Z.leb_le in Hk.
    apply nth_error_In in Hx. rewrite Forall_forall in H. apply H in Hx. lia.
  - destruct Hs as [-> _]. reflexivity.
Qed.

Lemma for_each_some_failure {S X : Type} (body : S -> X -> result S)
  (xs : list X) (e : exn) (s : S) :
  (forall s x, In x xs -> (exists s', body s x = Ok s') \/ body s x = Raise e) ->
  (exists x, In x xs /\ forall s, body s x = Raise e) ->
  for_each body xs s = Raise e.
Proof.
  intros Hall (x & Hx & Hfail). revert s.
  induction xs as [| y xs IH]; intros s; [contradiction |]. cbn.
  destruct (Hall s y (or_introl eq_refl)) as [[s' Hs'] | Hr].
  - rewrite Hs'. cbn. destruct Hx as [-> | Hx].
    + rewrite Hfail in Hs'. discriminate.
    + apply IH; [| exact Hx]. intros s0 z Hz. apply Hall. right. exact Hz.
  - rewrite Hr. reflexivity.
Qed.

Lemma for_each_outcome {S X : Type} (body : S -> X -> result S)
  (xs : list X) (e : exn) (s : S) :
  (forall s x, In x xs -> (exists s', body s x = Ok s') \/ body s x = Raise e) ->
  (exists s', for_each body xs s = Ok s') \/ for_each body xs s = Raise e.
Proof.
  intros Hall. revert s. induction xs as [| y xs IH]; intros s; cbn.
  - left. eauto.
  - destruct (Hall s y (or_introl eq_refl)) as [[s' Hs'] | Hr].
    + rewrite Hs'. cbn. apply IH. intros s0 z Hz. apply Hall. right. exact Hz.
    + rewrite Hr. right. reflexivity.
Qed.

Lemma last_checkpoint_is_a_checkpoint (max_exits : Z) (cps : list Z) :
  20 <= max_exits -> checkpoints max_exits = Ok cps ->
  In (last_checkpoint max_exits) cps.
Proof.
  intros H Hc. rewrite checkpoints_ok in Hc by exact H. injection Hc as <-.
  assert (Hs : 0 < max_exits / 20) by (apply Z.div_str_pos; lia).
  assert (Hq : 0 <= max_exits / (max_exits / 20)) by (apply Z.div_pos; lia).
  apply in_map_iff. exists (Z.to_nat (max_exits / (max_exits / 20))).
  split; [unfold last_checkpoint; rewrite Z2Nat.id by exact Hq; reflexivity |].
  apply in_seq. lia.
Qed.

(** X15. The aligner fails fast: with a population of at least 20, when one of
    the trials of the rounds has no exit count as large as the last
    checkpoint, the aligner raises [IndexError] and returns no alignment;
    the trial is not skipped. *)
Theorem unreached_checkpoint_raises (rounds : Z) (trials : list trial)
  (max_exits : Z) :
  20 <= max_exits ->
  0 < rounds <= Z.of_nat (List.length trials) ->
  (exists t,
     In t (firstn (Z.to_nat rounds) trials) /\
     Forall (fun e => e < last_checkpoint max_exits) (exits t)) ->
  align_configuration rounds trials max_exits = Raise IndexError.
Proof.
  intros Hpop Hr (t & Ht & Hshort).
  destruct (checkpoints_increasing max_exits Hpop) as (cps & Hcps & _).
  pose proof (last_checkpoint_is_a_checkpoint max_exits cps Hpop Hcps) as Hlast.
  unfold align_configuration. rewrite py_range_count. cbn [bind].
  rewrite for_each_some_failure with (e := IndexError); [reflexivity | |].
  - intros s j Hj. apply in_map_iff in Hj. destruct Hj as (i & <- & Hi).
    apply in_seq in Hi. unfold trial_step. rewrite trial_at_nat.
    destruct (nth_error trials i) as [t' |] eqn:Hn.
    2:{ apply nth_error_None in Hn. lia. }
    cbn [of_option bind]. rewrite Hcps. cbn [bind].
    apply for_each_outcome. intros s0 c _. apply checkpoint_step_outcome.
  - apply In_nth_error in Ht. destruct Ht as [i Hi].
    assert (Hlt : (i < Z.to_nat rounds)%nat).
    { assert (Hsome : nth_error (firstn (Z.to_nat rounds) trials) i <> None)
        by (rewrite Hi; discriminate).
      apply nth_error_Some in Hsome. rewrite length_firstn in Hsome. lia. }
    exists (Z.of_nat i). split.
    + apply in_map. apply in_seq. lia.
    + intros s. unfold trial_step. rewrite trial_at_nat.
      rewrite nth_error_firstn in Hi.
      assert (Hb : (i <? Z.to_nat rounds)%nat = true) by (apply Nat.ltb_lt; lia).
      rewrite Hb in Hi. rewrite Hi. cbn [of_option bind].
      rewrite Hcps. cbn [bind].
      apply for_each_some_failure.
      * intros s0 c _. apply checkpoint_step_outcome.
      * exists (last_checkpoint max_exits). split; [exact Hlast |].
        intros s0. apply checkpoint_step_unreached. exact Hshort.
Qed.

Lemma unreached_checkpoint_raises_witness :
  align_configuration 4 four_trials 20 = Raise IndexError.
Proof.
  apply (unreached_checkpoint_raises 4 four_trials 20).
  - lia.
  - cbn. lia.
  - exists (short_trial [0; 10; 20]%Q [0; 5; 19]).
    split; [do 3 right; left; reflexivity |].
    repeat constructor.
Defined.

(** ** The sweep and its dictionary *)

Lemma collect_loop_inv {X Y : Type} (g : Z -> result X) (h : X -> Y)
  (js : list Z) (acc res : list Y) :
  for_each (fun acc j => x <- g j ;; Ok (acc ++ [h x])) js acc = Ok res ->
  exists xs, Forall2 (fun j x => g j = Ok x) js xs /\ res = acc ++ map h xs.
Proof.
  revert acc. induction js as [| j js IH]; intros acc H; cbn in H.
  - injection H as <-. exists []. split; [constructor |].
    cbn. rewrite app_nil_r. reflexivity.
  - destruct (g j) as [x |] eqn:Hg; cbn in H; [| discriminate].
    destruct (IH _ H) as (xs & Hxs & ->).
    exists (x :: xs). split; [constructor; assumption |].
    cbn. rewrite <- app_assoc. reflexivity.
Qed.

Lemma run_configuration_inv {conv : Conversions} (rounds : Z)
  (log : Z -> list string) (cfg : configuration) :
  run_configuration rounds log = Ok cfg ->
  Forall2 (fun j t => run_trial (log j) = Ok t)
    (map Z.of_nat (seq 0 (Z.to_nat rounds))) (trials cfg) /\
  List.length (trials cfg) = Z.to_nat rounds.
Proof.
  unfold run_configuration. rewrite py_range_count. cbn [bind]. intros H.
  destruct (for_each _ _ []) as [ts |] eqn:Hts in H; [| discriminate].
  cbn [bind] in H.
  destruct (for_each _ _ []) as [rates |] in H; [| discriminate].
  cbn in H. injection H as <-. cbn [trials].
  destruct (collect_loop_inv (fun j => run_trial (log j)) (fun t => t) _ _ _ Hts)
    as (xs & Hxs & ->).
  cbn [app]. rewrite map_id. split; [exact Hxs |].
  apply Forall2_length_eq in Hxs. rewrite length_map, length_seq in Hxs. auto.
Qed.

Lemma Qeq_bool_false (x y : Q) : Qeq_bool x y = false <-> ~ (x == y)%Q.
Proof.
  split.
  - intros H E. apply Qeq_bool_iff in E. congruence.
  - intros H. destruct (Qeq_bool x y) eqn:E; [| reflexivity].
    apply Qeq_bool_iff in E. contradiction.
Qed.

Lemma sweep_get_set_eq (s : sweep) (d q : Q) (c : configuration) :
  Qeq_bool d q = true -> sweep_get (sweep_set s d c) q = Some c.
Proof.
  intros Hdq. apply Qeq_bool_iff in Hdq.
  induction s as [| [k c'] s IH]; cbn.
  - assert (H : Qeq_bool d q = true) by (apply Qeq_bool_iff; exact Hdq).
    rewrite H. reflexivity.
  - destruct (Qeq_bool k d) eqn:Hkd; cbn.
    + apply Qeq_bool_iff in Hkd.
      assert (H : Qeq_bool k q = true)
        by (apply Qeq_bool_iff; rewrite Hkd; exact Hdq).
      rewrite H. reflexivity.
    + apply Qeq_bool_false in Hkd.
      assert (H : Qeq_bool k q = false).
      { apply Qeq_bool_false. intros E. apply Hkd. rewrite E, Hdq. reflexivity. }
      rewrite H. exact IH.
Qed.

Lemma sweep_get_set_other (s : sweep) (d q : Q) (c : configuration) :
  Qeq_bool d q = false -> sweep_get (sweep_set s d c) q = sweep_get s q.
Proof.
  intros Hdq. apply Qeq_bool_false in Hdq.
  induction s as [| [k c'] s IH]; cbn.
  - assert (H : Qeq_bool d q = false) by (apply Qeq_bool_false; exact Hdq).
    rewrite H. reflexivity.
  - destruct (Qeq_bool k d) eqn:Hkd; cbn.
    + apply Qeq_bool_iff in Hkd.
      assert (H : Qeq_bool k q = false).
      { apply Qeq_bool_false. intros E. apply Hdq. rewrite <- Hkd. exact E. }
      rewrite H. reflexivity.
    + destruct (Qeq_bool k q); [reflexivity | exact IH].
Qed.

Section Sweep.
Context {conv : Conversions}.
Variable widths : list Q.
Variable pedestrians : list Z.
Variable rounds : Z.
Variable log : Z -> Z -> list string.

(** What the sweep stores under a width: the configuration of a run for a
    width equal to it. *)
Let stored (s : sweep) : Prop :=
  forall d cfg,
    sweep_get s d = Some cfg ->
    exists i d',
      nth_error widths i = Some d' /\ (d' == d)%Q /\
      run_configuration rounds (log (Z.of_nat i)) = Ok cfg.

Let body (s : sweep) (id : Z * Q) : result sweep :=
  _ <- py_index pedestrians (fst id) ;;
  cfg <- run_configuration rounds (log (fst id)) ;;
  Ok (sweep_set s (snd id) cfg).

Lemma sweep_loop (l pre : list Q) (s0 s : sweep) :
  widths = pre ++ l ->
  for_each body
    (combine (map Z.of_nat (seq (List.length pre) (List.length l))) l) s0
  = Ok s ->
  stored s0 ->
  (forall d, In d pre -> sweep_get s0 d <> None) ->
  stored s /\ forall d, In d widths -> sweep_get s d <> None.
Proof.
  revert pre s0. induction l as [| d l IH]; intros pre s0 Hw Hrun Hst Hpre.
  - cbn in Hrun. injection Hrun as <-. split; [exact Hst |].
    rewrite Hw, app_nil_r. exact Hpre.
  - cbn [List.length seq map combine for_each] in Hrun.
    unfold body at 1 in Hrun. cbn [fst snd] in Hrun.
    destruct (py_index pedestrians _) as [p |]; [| discriminate].
    cbn [bind] in Hrun.
    destruct (run_configuration rounds _) as [cfg |] eqn:Hcfg; [| discriminate].
    cbn [bind] in Hrun.
    apply (IH (pre ++ [d]) (sweep_set s0 d cfg)).
    + rewrite <- app_assoc. exact Hw.
    + rewrite length_app. cbn [List.length]. rewrite Nat.add_1_r. exact Hrun.
    + intros q c Hq.
      destruct (Qeq_bool d q) eqn:Hdq.
      * rewrite (sweep_get_set_eq s0 d q cfg Hdq) in Hq. injection Hq as <-.
        exists (List.length pre), d.
        split; [rewrite Hw, nth_error_app2, Nat.sub_diag by lia; reflexivity |].
        split; [apply Qeq_bool_iff; exact Hdq | exact Hcfg].
      * rewrite (sweep_get_set_other s0 d q cfg Hdq) in Hq.
        exact (Hst q c Hq).
    + intros q Hq. apply in_app_or in Hq.
      destruct (Qeq_bool d q) eqn:Hdq.
      * rewrite (sweep_get_set_eq s0 d q cfg Hdq). discriminate.
      * rewrite (sweep_get_set_other s0 d q cfg Hdq).
        destruct Hq as [Hq | [<- | []]]; [apply Hpre; exact Hq |].
        exfalso. apply Qeq_bool_false in Hdq. apply Hdq. reflexivity.
Qed.

Lemma run_simulations_stores (sims : simulations) :
  run_simulations widths pedestrians rounds log = Ok sims ->
  sim_rounds sims = rounds /\
  stored (by_width sims) /\
  forall d, In d widths -> sweep_get (by_width sims) d <> None.
Proof.
  unfold run_simulations, enumerate. intros H.
  match type of H with
  | context [for_each ?b ?xs ?s0] =>
      destruct (for_each b xs s0) as [s |] eqn:Hs; [| discriminate]
  end.
  cbn in H. injection H as <-. cbn [sim_rounds by_width].
  split; [reflexivity |].
  apply (sweep_loop widths [] [] s); [reflexivity | exact Hs | |].
  - intros d cfg Hd. discriminate.
  - intros d [].
Qed.
End Sweep.

(** X16. After a sweep that returns, every exit width of the list is a key of
    the result, and what is stored under it is the configuration of a run
    made for a width equal to it, with one trial per round: the lookups of
    the aligner never miss a width. *)
Theorem swept_widths_are_stored (conv : Conversions) (widths : list Q)
  (pedestrians : list Z) (rounds : Z) (log : Z -> Z -> list string)
  (sims : simulations) :
  run_simulations widths pedestrians rounds log = Ok sims ->
  sim_rounds sims = rounds /\
  forall d, In d widths ->
    exists cfg i d',
      sweep_get (by_width sims) d = Some cfg /\
      nth_error widths i = Some d' /\ (d' == d)%Q /\
      run_configuration rounds (log (Z.of_nat i)) = Ok cfg /\
      List.length (trials_of sims d) = Z.to_nat rounds.
Proof.
  intros H.
  destruct (run_simulations_stores widths pedestrians rounds log sims H)
    as (Hr & Hst & Hin).
  split; [exact Hr |]. intros d Hd.
  destruct (sweep_get (by_width sims) d) as [cfg |] eqn:Hget.
  2:{ exfalso. exact (Hin d Hd Hget). }
  destruct (Hst d cfg Hget) as (i & d' & Hi & Hd' & Hcfg).
  exists cfg, i, d'. repeat split; try assumption.
  unfold trials_of. rewrite Hget.
  apply (run_configuration_inv rounds (log (Z.of_nat i)) cfg Hcfg).
Qed.

Lemma sweep_loop_returns {conv : Conversions} (pedestrians : list Z)
  (rounds : Z) (log : Z -> Z -> list string) (l : list Q) (a : nat)
  (s0 : sweep) :
  (a + List.length l <= List.length pedestrians)%nat ->
  (forall i, (a <= i < a + List.length l)%nat ->
             exists cfg, run_configuration rounds (log (Z.of_nat i)) = Ok cfg) ->
  exists s,
    for_each
      (fun s id =>
         _ <- py_index pedestrians (fst id) ;;
         cfg <- run_configuration rounds (log (fst id)) ;;
         Ok (sweep_set s (snd id) cfg))
      (combine (map Z.of_nat (seq a (List.length l))) l) s0
    = Ok s.
Proof.
  revert a s0. induction l as [| d l IH]; intros a s0 Hlen Hruns.
  - exists s0. reflexivity.
  - cbn [List.length seq map combine for_each fst snd] in *.
    rewrite py_index_nat.
    destruct (nth_error pedestrians a) as [p |] eqn:Hp.
    2:{ apply nth_error_None in Hp. lia. }
    cbn [of_option bind].
    destruct (Hruns a ltac:(lia)) as [cfg ->]. cbn [bind].
    apply IH; [lia |]. intros i Hi. apply Hruns. lia.
Qed.

Lemma swept_widths_are_stored_witness :
  exists sims,
    run_simulations (conv := decimal) [1.2; 1.8]%Q [200; 260] 2
      (fun _ => diagonal_log) = Ok sims /\
    sim_rounds sims = 2 /\
    forall d, In d [1.2; 1.8]%Q ->
      exists cfg i d',
        sweep_get (by_width sims) d = Some cfg /\
        nth_error [1.2; 1.8]%Q i = Some d' /\ (d' == d)%Q /\
        run_configuration (conv := decimal) 2 diagonal_log = Ok cfg /\
        List.length (trials_of sims d) = Z.to_nat 2.
Proof.
  destruct (sweep_loop_returns (conv := decimal) [200; 260] 2
              (fun _ => diagonal_log) [1.2; 1.8]%Q 0 [])
    as [s Hs].
  - cbn. lia.
  - intros i _.
    destruct (run_configuration_ok (conv := decimal) 2 diagonal_log
                [diagonal_trial; diagonal_trial]) as [_ Hrun].
    + constructor; [vm_compute; reflexivity |].
      constructor; [vm_compute; reflexivity | constructor].
    + eexists. exact Hrun.
  - assert (Hrun : run_simulations (conv := decimal) [1.2; 1.8]%Q [200; 260] 2
                     (fun _ => diagonal_log)
                   = Ok {| sim_rounds := 2; by_width := s |}).
    { unfold run_simulations, enumerate. rewrite Hs. reflexivity. }
    eexists. split; [exact Hrun |].
    apply (swept_widths_are_stored decimal [1.2; 1.8]%Q [200; 260] 2
             (fun _ => diagonal_log)).
    exact Hrun.
Defined.

Lemma for_each_ok_each {S X : Type} (body : S -> X -> result S)
  (xs : list X) (s s' : S) :
  for_each body xs s = Ok s' ->
  forall x, In x xs -> exists s1 s2, body s1 x = Ok s2.
Proof.
  revert s. induction xs as [| y xs IH]; intros s H x Hx; [contradiction |].
  cbn in H. destruct (body s y) as [s1 |] eqn:Hb; [| discriminate].
  cbn in H. destruct Hx as [<- | Hx]; [eauto | exact (IH s1 H x Hx)].
Qed.

Lemma in_enumerate_from {X : Type} (l : list X) (a i : nat) (x : X) :
  nth_error l i = Some x ->
  In (Z.of_nat (a + i), x)
     (combine (map Z.of_nat (seq a (List.length l))) l).
Proof.
  revert a i. induction l as [| y l IH]; intros a [| i] H; cbn in *;
    try discriminate.
  - injection H as ->. left. rewrite Nat.add_0_r. reflexivity.
  - right. replace (a + S i)%nat with (S a + i)%nat by lia.
    apply IH. exact H.
Qed.

Lemma in_enumerate {X : Type} (l : list X) (i : nat) (x : X) :
  nth_error l i = Some x -> In (Z.of_nat i, x) (enumerate l).
Proof. intros H. exact (in_enumerate_from l 0 i x H). Qed.

(** X17. The two lists of the sweep are read by the same index: when there are
    fewer pedestrian counts than exit widths, neither the sweep nor the
    aligner returns a result. *)
Theorem missing_pedestrian_count_is_never_accepted (conv : Conversions)
  (widths : list Q) (pedestrians : list Z) (rounds : Z)
  (log : Z -> Z -> list string) :
  (List.length pedestrians < List.length widths)%nat ->
  (forall sims, run_simulations widths pedestrians rounds log <> Ok sims) /\
  (forall sims plots, exit_rate_comp sims widths pedestrians <> Ok plots).
Proof.
  intros Hlen.
  destruct (nth_error widths (List.length pedestrians)) as [d |] eqn:Hd.
  2:{ apply nth_error_None in Hd. lia. }
  pose proof (in_enumerate widths _ d Hd) as Hin.
  assert (Hidx : py_index pedestrians (Z.of_nat (List.length pedestrians))
                 = Raise IndexError).
  { rewrite py_index_nat.
    assert (Hn : nth_error pedestrians (List.length pedestrians) = None)
      by (apply nth_error_None; lia).
    rewrite Hn. reflexivity. }
  split.
  - intros sims H. unfold run_simulations in H.
    match type of H with
    | context [for_each ?b ?xs ?s0] =>
        destruct (for_each b xs s0) as [s |] eqn:Hs; [| discriminate]
    end.
    destruct (for_each_ok_each _ _ _ _ Hs _ Hin) as (s1 & s2 & Hb).
    cbn [fst snd] in Hb. rewrite Hidx in Hb. discriminate.
  - intros sims plots H. unfold exit_rate_comp in H.
    destruct (for_each_ok_each _ _ _ _ H _ Hin) as (s1 & s2 & Hb).
    cbn [fst snd] in Hb. rewrite Hidx in Hb. discriminate.
Qed.

Lemma missing_pedestrian_count_is_never_accepted_witness :
  (forall sims,
     run_simulations (conv := decimal) [1.2; 1.8]%Q [200] 3
       (fun _ => diagonal_log) <> Ok sims) /\
  (forall sims plots, exit_rate_comp sims [1.2; 1.8]%Q [200] <> Ok plots).
Proof.
  apply (missing_pedestrian_count_is_never_accepted decimal [1.2; 1.8]%Q
           [200] 3 (fun _ => diagonal_log)).
  cbn. lia.
Defined.

Lemma align_zero_step (rounds : Z) (trials : list trial) (max_exits : Z) :
  0 <= max_exits < 20 -> 0 < rounds -> trials <> [] ->
  align_configuration rounds trials max_exits = Raise ValueError.
Proof.
  intros H Hr Ht.
  unfold align_configuration. rewrite py_range_count. cbn [bind].
  destruct (Z.to_nat rounds) as [| n] eqn:Hn; [lia |].
  destruct trials as [| t trials]; [contradiction |].
  cbn. unfold trial_step at 1. cbn.
  rewrite (checkpoints_small max_exits H). reflexivity.
Qed.

(** X18. [main] never gets to the plot of the flow rate when one of the swept
    populations is below 20: the three rounds of every width are simulated
    first, and the aligner then raises on the zero step, or an earlier
    exception has ended the run. *)
Theorem main_fails_on_a_small_population (conv : Conversions)
  (widths : list Q) (pedestrians : list Z) (log : Z -> Z -> list string)
  (i : nat) (p : Z) :
  (i < List.length widths)%nat ->
  nth_error pedestrians i = Some p ->
  0 <= p < 20 ->
  forall r, main_flow_rates widths pedestrians log <> Ok r.
Proof.
  intros Hi Hp Hsmall r H. unfold main_flow_rates in H.
  destruct (run_simulations widths pedestrians 3 log) as [sims |] eqn:Hsims;
    [| discriminate].
  cbn [bind] in H.
  destruct (exit_rate_comp sims widths pedestrians) as [plots |] eqn:Hplots;
    [| discriminate].
  destruct (run_simulations_stores widths pedestrians 3 log sims Hsims)
    as (Hr & Hst & Hin).
  destruct (nth_error widths i) as [d |] eqn:Hd.
  2:{ apply nth_error_None in Hd. lia. }
  unfold exit_rate_comp in Hplots.
  destruct (for_each_ok_each _ _ _ _ Hplots _ (in_enumerate widths i d Hd))
    as (s1 & s2 & Hb).
  cbn [fst snd] in Hb. rewrite py_index_nat, Hp in Hb. cbn [of_option bind] in Hb.
  rewrite align_zero_step in Hb; [discriminate | exact Hsmall | lia |].
  unfold trials_of.
  destruct (sweep_get (by_width sims) d) as [cfg |] eqn:Hget.
  2:{ exfalso. exact (Hin d (nth_error_In _ _ Hd) Hget). }
  destruct (Hst d cfg Hget) as (k & d' & _ & _ & Hcfg).
  apply run_configuration_inv in Hcfg. destruct Hcfg as [_ Hlen].
  intros Hnil. rewrite Hnil in Hlen. cbn in Hlen. lia.
Qed.

Lemma main_fails_on_a_small_population_witness :
  ~ exists r,
      main_flow_rates (conv := decimal) [1.2; 1.8]%Q [200; 10]
        (fun _ => diagonal_log) = Ok r.
Proof.
  intros [r Hr]. revert Hr.
  apply (main_fails_on_a_small_population decimal [1.2; 1.8]%Q [200; 10]
           (fun _ => diagonal_log) 1 10).
  - cbn. lia.
  - reflexivity.
  - lia.
Defined.

(** ** The fitted curve *)



(** ** What [main] reads back from the sweep *)

Lemma collect_rates_loop (s : sweep) (l : list Q)
  (acc : list float * list (option R)) :
  (forall d, In d l -> sweep_get s d <> None) ->
  exists cfgs,
    Forall2 (fun d cfg => sweep_get s d = Some cfg) l cfgs /\
    for_each
      (fun acc d =>
         cfg <- of_option KeyError (sweep_get s d) ;;
         Ok (fst acc ++ [fst (summary cfg)], snd acc ++ [snd (summary cfg)]))
      l acc
    = Ok (fst acc ++ map (fun c => fst (summary c)) cfgs,
          snd acc ++ map (fun c => snd (summary c)) cfgs).
Proof.
  revert acc. induction l as [| d l IH]; intros acc Hin.
  - exists []. split; [constructor |]. cbn. rewrite !app_nil_r.
    destruct acc; reflexivity.
  - destruct (sweep_get s d) as [cfg |] eqn:Hget.
    2:{ exfalso. exact (Hin d (or_introl eq_refl) Hget). }
    destruct (IH (fst acc ++ [fst (summary cfg)], snd acc ++ [snd (summary cfg)])
                (fun q Hq => Hin q (or_intror Hq))) as (cfgs & Hall & Hrun).
    exists (cfg :: cfgs). split; [constructor; assumption |].
    cbn [for_each]. rewrite Hget. cbn [of_option bind]. rewrite Hrun.
    cbn [fst snd map]. rewrite <- !app_assoc. reflexivity.
Qed.

(** X20. After a sweep that returns, [main] finds the mean and the deviation of
    every exit width: the two series of its plot have one entry per width,
    in the order of the widths, taken from the configuration stored under
    the width, and no [KeyError] is raised. *)
Theorem rates_are_collected_for_every_width (conv : Conversions)
  (widths : list Q) (pedestrians : list Z) (rounds : Z)
  (log : Z -> Z -> list string) (sims : simulations) :
  run_simulations widths pedestrians rounds log = Ok sims ->
  exists cfgs,
    Forall2 (fun d cfg => sweep_get (by_width sims) d = Some cfg) widths cfgs /\
    collect_rates sims widths
    = Ok (map (fun c => fst (summary c)) cfgs,
          map (fun c => snd (summary c)) cfgs).
Proof.
  intros H.
  destruct (run_simulations_stores widths pedestrians rounds log sims H)
    as (_ & _ & Hin).
  destruct (collect_rates_loop (by_width sims) widths ([], []) Hin)
    as (cfgs & Hall & Hrun).
  exists cfgs. split; [exact Hall | exact Hrun].
Qed.

Lemma two_widths_sweep_returns :
  exists sims,
    run_simulations (conv := decimal) [1.2; 1.8]%Q [200; 260] 2
      (fun _ => diagonal_log) = Ok sims.
Proof.
  destruct (sweep_loop_returns (conv := decimal) [200; 260] 2
              (fun _ => diagonal_log) [1.2; 1.8]%Q 0 [])
    as [s Hs].
  - cbn. lia.
  - intros i _.
    destruct (run_configuration_ok (conv := decimal) 2 diagonal_log
                [diagonal_trial; diagonal_trial]) as [_ Hrun].
    + constructor; [vm_compute; reflexivity |].
      constructor; [vm_compute; reflexivity | constructor].
    + eexists. exact Hrun.
  - eexists. unfold run_simulations, enumerate. rewrite Hs. reflexivity.
Qed.

Lemma rates_are_collected_for_every_width_witness :
  exists sims cfgs,
    run_simulations (conv := decimal) [1.2; 1.8]%Q [200; 260] 2
      (fun _ => diagonal_log) = Ok sims /\
    Forall2 (fun d cfg => sweep_get (by_width sims) d = Some cfg)
      [1.2; 1.8]%Q cfgs /\
    collect_rates sims [1.2; 1.8]%Q
    = Ok (map (fun c => fst (summary c)) cfgs,
          map (fun c => snd (summary c)) cfgs).
Proof.
  destruct two_widths_sweep_returns as [sims Hsims].
  destruct (rates_are_collected_for_every_width decimal [1.2; 1.8]%Q
              [200; 260] 2 (fun _ => diagonal_log) sims Hsims)
    as (cfgs & Hall & Hrun).
  exists sims, cfgs. auto.
Defined.

Lemma for_each_app {S X : Type} (body : S -> X -> result S) (xs ys : list X)
  (s : S) :
  for_each body (xs ++ ys) s = (s' <- for_each body xs s ;; for_each body ys s').
Proof.
  revert s. induction xs as [| x xs IH]; intros s; cbn.
  - reflexivity.
  - destruct (body s x) as [s' | e]; cbn; [apply IH | reflexivity].
Qed.

Lemma enumerate_from_app {X : Type} (l1 l2 : list X) (a : nat) :
  combine (map Z.of_nat (seq a (List.length (l1 ++ l2)))) (l1 ++ l2)
  = combine (map Z.of_nat (seq a (List.length l1))) l1
    ++ combine (map Z.of_nat (seq (a + List.length l1) (List.length l2))) l2.
Proof.
  revert a. induction l1 as [| x l1 IH]; intros a; cbn.
  - rewrite Nat.add_0_r. reflexivity.
  - f_equal. rewrite IH. replace (S a + List.length l1)%nat
      with (a + S (List.length l1))%nat by lia. reflexivity.
Qed.

Lemma sweep_loop_keeps {conv : Conversions} (pedestrians : list Z)
  (rounds : Z) (log : Z -> Z -> list string) (l : list Q) (a : nat)
  (s0 s : sweep) (q : Q) :
  (forall d, In d l -> ~ (d == q)%Q) ->
  for_each
    (fun s id =>
       _ <- py_index pedestrians (fst id) ;;
       cfg <- run_configuration rounds (log (fst id)) ;;
       Ok (sweep_set s (snd id) cfg))
    (combine (map Z.of_nat (seq a (List.length l))) l) s0
  = Ok s ->
  sweep_get s q = sweep_get s0 q.
Proof.
  revert a s0. induction l as [| d l IH]; intros a s0 Hne H.
  - cbn in H. injection H as <-. reflexivity.
  - cbn [List.length seq map combine for_each fst snd] in H.
    destruct (py_index pedestrians _) as [p |]; [| discriminate].
    cbn [bind] in H.
    destruct (run_configuration rounds _) as [cfg |]; [| discriminate].
    cbn [bind] in H.
    rewrite (IH (S a) _ (fun d' Hd' => Hne d' (or_intror Hd')) H).
    apply sweep_get_set_other. apply Qeq_bool_false.
    apply Hne. left. reflexivity.
Qed.

(** X21. The result of the sweep keeps one configuration per width: what is
    stored under a width is the configuration of its last run. A width that
    occurs twice in the list loses the trials of its first run. *)
Theorem last_run_of_a_width_is_kept (conv : Conversions)
  (pre : list Q) (d : Q) (post : list Q) (pedestrians : list Z) (rounds : Z)
  (log : Z -> Z -> list string) (sims : simulations) :
  (forall d', In d' post -> ~ (d' == d)%Q) ->
  run_simulations (pre ++ d :: post) pedestrians rounds log = Ok sims ->
  exists cfg,
    sweep_get (by_width sims) d = Some cfg /\
    run_configuration rounds (log (Z.of_nat (List.length pre))) = Ok cfg.
Proof.
  intros Hpost H. unfold run_simulations, enumerate in H.
  match type of H with
  | context [for_each ?b ?xs ?s0] =>
      destruct (for_each b xs s0) as [s |] eqn:Hs; [| discriminate]
  end.
  cbn in H. injection H as <-. cbn [by_width].
  rewrite enumerate_from_app, for_each_app in Hs.
  match type of Hs with
  | context [for_each ?b (combine _ pre) ?s0] =>
      destruct (for_each b (combine (map Z.of_nat (seq 0 (List.length pre))) pre) s0)
        as [s1 |]; [| discriminate]
  end.
  cbn [bind List.length seq map combine for_each fst snd Nat.add] in Hs.
  destruct (py_index pedestrians _) as [p |]; [| discriminate].
  cbn [bind] in Hs.
  destruct (run_configuration rounds _) as [cfg |] eqn:Hcfg; [| discriminate].
  cbn [bind] in Hs.
  exists cfg. split; [| reflexivity].
  rewrite (sweep_loop_keeps pedestrians rounds log post _ _ s d Hpost Hs).
  apply sweep_get_set_eq. apply Qeq_bool_iff. reflexivity.
Qed.

Lemma Ok_injective {A : Type} (a b : A) : Ok a = Ok b -> a = b.
Proof. intros H. injection H as ->. reflexivity. Qed.

Lemma last_run_of_a_width_is_kept_witness :
  exists sims cfg,
    run_simulations (conv := decimal) [1.2%Q; 1.2%Q] [200; 200] 2
      twice_log = Ok sims /\
    sweep_get (by_width sims) 1.2%Q = Some cfg /\
    run_configuration (conv := decimal) 2
      (twice_log (Z.of_nat (List.length [1.2%Q]))) = Ok cfg /\
    trials cfg = [flat_trial; flat_trial].
Proof.
  destruct (sweep_loop_returns (conv := decimal) [200; 200] 2 twice_log
              [1.2%Q; 1.2%Q] 0 [])
    as [s Hs].
  - cbn. lia.
  - intros i Hi. cbn in Hi.
    assert (Hcase : i = 0%nat \/ i = 1%nat) by lia.
    destruct Hcase as [-> | ->].
    + destruct (run_configuration_ok (conv := decimal) 2
                  (twice_log (Z.of_nat 0)) [diagonal_trial; diagonal_trial])
        as [_ Hrun].
      * constructor; [vm_compute; reflexivity |].
        constructor; [vm_compute; reflexivity | constructor].
      * eexists. exact Hrun.
    + destruct (run_configuration_ok (conv := decimal) 2
                  (twice_log (Z.of_nat 1)) [flat_trial; flat_trial])
        as [_ Hrun].
      * constructor; [vm_compute; reflexivity |].
        constructor; [vm_compute; reflexivity | constructor].
      * eexists. exact Hrun.
  - assert (Hrun : run_simulations (conv := decimal)
                     [1.2%Q; 1.2%Q] [200; 200] 2 twice_log
                   = Ok {| sim_rounds := 2; by_width := s |}).
    { unfold run_simulations, enumerate. rewrite Hs. reflexivity. }
    destruct (last_run_of_a_width_is_kept decimal [1.2%Q] 1.2%Q []
                [200; 200] 2 twice_log {| sim_rounds := 2; by_width := s |}
                (fun d' (H : In d' []) => match H with end) Hrun)
      as (cfg & Hget & Hcfg).
    exists {| sim_rounds := 2; by_width := s |}, cfg.
    split; [exact Hrun |]. split; [exact Hget |]. split; [exact Hcfg |].
    destruct (run_configuration_ok (conv := decimal) 2
                (twice_log (Z.of_nat 1)) [flat_trial; flat_trial])
      as [_ Hflat].
    + constructor; [vm_compute; reflexivity |].
      constructor; [vm_compute; reflexivity | constructor].
    + change (Z.of_nat (List.length [1.2%Q])) with (Z.of_nat 1) in Hcfg.
      rewrite Hflat in Hcfg. apply Ok_injective in Hcfg. subst cfg. reflexivity.
Defined.
